(** * Network monitor backend (server.ts): a shallow embedding

    The server keeps three SQLite tables (users, traffic_logs, settings),
    serves a handful of JSON routes behind a bearer-token middleware, and
    runs a 2-second timer that inserts one synthetic traffic record and
    pushes it to the connected web-socket clients.

    Conventions of the embedding.
    - SQLite INTEGER columns are [Z]; an SQL NULL is [None].  Aggregates are
      computed exactly on [Z] (the engine's integers are 64-bit; one
      generated record adds less than 550000 to any sum).
    - A DATETIME column holds the UTC text 'YYYY-MM-DD HH:MM:SS'.  It is
      modelled by the number of seconds since the epoch, and the hour label
      produced by strftime('%Y-%m-%d %H:00:00', _) by the number of whole
      hours since the epoch: text order on both formats is time order.
    - A table is the list of its rows in insertion order.
    - GROUP BY on an un-indexed column goes through the engine's sorter:
      without ORDER BY the groups come out in ascending key order; for the
      top-domains query (ORDER BY total_bytes DESC LIMIT 5) the engine walks
      the groups in descending key order and keeps rows with equal sort
      keys in the order they were produced, so rows of equal total come
      out in descending order of domain.
    - Everything the server calls but does not define (bcrypt, the JWT
      signature and codec, column affinity of text, constraint messages)
      is collected in the record [externals]. *)

From Stdlib Require Import String Ascii.
From Stdlib Require Import ZArith List Bool Lia.
From Stdlib Require Import Sorted Permutation PrimInt63 PrimFloat.
From Stdlib Require Import DecimalString.
From Stdlib Require SpecFloat FloatOps OrderedTypeEx.
Import ListNotations.

Local Open Scope string_scope.
Local Open Scope list_scope.
Local Open Scope Z_scope.

(* ================================================================== *)
(** ** List helpers used by the query engine *)

Section StableSort.
Context {A : Type}.
Variable leb : A -> A -> bool.

(** [insert x l] puts [x] in front of the first element it does not
    exceed, so an element never overtakes an earlier equal one. *)
Fixpoint insert (x : A) (l : list A) : list A :=
  match l with
  | [] => [x]
  | y :: l' => if leb x y then x :: y :: l' else y :: insert x l'
  end.

Definition sort (l : list A) : list A := fold_right insert [] l.
End StableSort.

(** The distinct values of a list, each at its first occurrence. *)
Fixpoint distinct {K : Type} (eqb : K -> K -> bool) (l : list K) : list K :=
  match l with
  | [] => []
  | k :: l' => k :: filter (fun k' => negb (eqb k k')) (distinct eqb l')
  end.

(* ================================================================== *)
(** ** SQL aggregates over nullable integers *)

Definition sum_list (l : list Z) : Z := fold_right Z.add 0 l.

(** SUM(e) is NULL when no row contributes. *)
Definition SUM (l : list Z) : option Z :=
  match l with
  | [] => None
  | _ :: _ => Some (sum_list l)
  end.

(** COUNT( * ) *)
Definition COUNT {A} (l : list A) : Z := Z.of_nat (length l).

(** The engine's order on nullable integers: NULL sorts below every
    number. *)
Definition sql_leb (a b : option Z) : bool :=
  match a, b with
  | None, _ => true
  | Some _, None => false
  | Some x, Some y => x <=? y
  end.

(* ================================================================== *)
(** ** The three tables *)

(** A value as SQLite stores it in a column. *)
Inductive sqlval :=
| SqlNull
| SqlInt (n : Z)
| SqlReal (x : float)
| SqlText (s : string).

(** traffic_logs *)
Record traffic_log := {
  log_id : Z;
  timestamp : Z;
  source_ip : string;
  destination_ip : string;
  domain : string;
  protocol : string;
  upload_bytes : Z;
  download_bytes : Z
}.

(** users *)
Record user := {
  user_id : Z;
  username : string;
  email : string;
  password_hash : string
}.

(** settings: id INTEGER PRIMARY KEY CHECK (id = 1), data_limit_gb REAL,
    alerts_enabled INTEGER *)
Record settings_row := {
  settings_id : Z;
  data_limit_gb : sqlval;
  alerts_enabled : Z
}.

(** The database file: the tables, and for the two AUTOINCREMENT keys the
    largest id handed out so far. *)
Record database := {
  users : list user;
  traffic_logs : list traffic_log;
  settings : list settings_row;
  users_seq : Z;
  traffic_seq : Z
}.

(* ================================================================== *)
(** ** Aggregator queries (GET /api/traffic/summary, /history) *)

Definition seconds_per_hour : Z := 3600.
Definition hours24 : Z := 24 * seconds_per_hour.
Definition days30 : Z := 30 * 24 * seconds_per_hour.

(** WHERE timestamp > datetime('now', '-<window>') *)
Definition newer_than (now window : Z) (r : traffic_log) : bool :=
  now - window <? timestamp r.

Record stats_row := {
  total_upload : option Z;
  total_download : option Z;
  total_packets : Z
}.

Definition stats_query (now : Z) (t : list traffic_log) : stats_row :=
  let rows := filter (newer_than now days30) t in
  {| total_upload := SUM (map upload_bytes rows);
     total_download := SUM (map download_bytes rows);
     total_packets := COUNT rows |}.

Record domain_row := {
  dr_domain : string;
  total_bytes : option Z
}.

Definition in_domain (d : string) (r : traffic_log) : bool :=
  (domain r =? d)%string.

Definition combined_bytes (r : traffic_log) : Z :=
  upload_bytes r + download_bytes r.

(** GROUP BY domain under ORDER BY total_bytes DESC: the distinct
    domains, as the engine walks them for this query, largest first. *)
Definition domain_groups (t : list traffic_log) : list string :=
  sort (fun a b => String.leb b a) (distinct String.eqb (map domain t)).

(** SELECT domain, SUM(upload_bytes + download_bytes) as total_bytes
    FROM traffic_logs GROUP BY domain *)
Definition by_domain (t : list traffic_log) : list domain_row :=
  map (fun d =>
         {| dr_domain := d;
            total_bytes := SUM (map combined_bytes (filter (in_domain d) t)) |})
      (domain_groups t).

(** ORDER BY total_bytes DESC *)
Definition total_desc (a b : domain_row) : bool :=
  sql_leb (total_bytes b) (total_bytes a).

(** ... ORDER BY total_bytes DESC LIMIT 5 *)
Definition topDomains (t : list traffic_log) : list domain_row :=
  firstn 5 (sort total_desc (by_domain t)).

Record protocol_row := {
  pr_protocol : string;
  count : Z
}.

(** SELECT protocol, COUNT( * ) as count FROM traffic_logs GROUP BY protocol *)
Definition protocolStats (t : list traffic_log) : list protocol_row :=
  map (fun p =>
         {| pr_protocol := p;
            count := COUNT (filter (fun r => (protocol r =? p)%string) t) |})
      (sort String.leb (distinct String.eqb (map protocol t))).

Record history_row := {
  hour : Z;
  upload : option Z;
  download : option Z
}.

(** strftime('%Y-%m-%d %H:00:00', timestamp) *)
Definition hour_of (r : traffic_log) : Z := timestamp r / seconds_per_hour.

Definition in_hour (h : Z) (r : traffic_log) : bool := hour_of r =? h.

Definition hour_asc (a b : history_row) : bool := hour a <=? hour b.

(** SELECT strftime(...) as hour, SUM(upload_bytes) as upload,
           SUM(download_bytes) as download
    FROM traffic_logs WHERE timestamp > datetime('now', '-24 hours')
    GROUP BY hour ORDER BY hour ASC *)
Definition history (now : Z) (t : list traffic_log) : list history_row :=
  let rows := filter (newer_than now hours24) t in
  sort hour_asc
    (map (fun h =>
            {| hour := h;
               upload := SUM (map upload_bytes (filter (in_hour h) rows));
               download := SUM (map download_bytes (filter (in_hour h) rows)) |})
         (sort Z.leb (distinct Z.eqb (map hour_of rows)))).

(** db.exec at start-up.  The CREATE TABLE IF NOT EXISTS statements leave
    existing tables alone; INSERT OR IGNORE adds the settings row unless
    the primary key 1 is already taken. *)
Definition default_settings : settings_row :=
  {| settings_id := 1; data_limit_gb := SqlReal 100%float; alerts_enabled := 1 |}.

Definition empty_database : database :=
  {| users := []; traffic_logs := []; settings := [];
     users_seq := 0; traffic_seq := 0 |}.

Definition initialize (d : database) : database :=
  if existsb (fun r => settings_id r =? 1) (settings d) then d
  else {| users := users d;
          traffic_logs := traffic_logs d;
          settings := settings d ++ [default_settings];
          users_seq := users_seq d;
          traffic_seq := traffic_seq d |}.

(* ================================================================== *)
(** ** JavaScript values of a parsed JSON body *)

(** The scalar values a destructured body field can hold; [JUndefined] is
    an absent field. *)
Inductive jsval :=
| JUndefined
| JNull
| JBool (b : bool)
| JNum (x : float)
| JStr (s : string).

(** ToBoolean, as used by [alerts_enabled ? 1 : 0]. *)
Definition truthy (v : jsval) : bool :=
  match v with
  | JUndefined | JNull => false
  | JBool b => b
  | JNum x => negb (PrimFloat.is_zero x || PrimFloat.is_nan x)
  | JStr s => negb (s =? "")%string
  end.

Fixpoint int_of_pos (p : positive) : PrimInt63.int :=
  match p with
  | xH => 1%uint63
  | xO p' => PrimInt63.lsl (int_of_pos p') 1%uint63
  | xI p' => PrimInt63.lor (PrimInt63.lsl (int_of_pos p') 1%uint63) 1%uint63
  end.

(** An SQLite integer read back as a JavaScript number (exact below
    2^53). *)
Definition float_of_Z (n : Z) : float :=
  match n with
  | Z0 => PrimFloat.zero
  | Zpos p => PrimFloat.of_uint63 (int_of_pos p)
  | Zneg p => PrimFloat.opp (PrimFloat.of_uint63 (int_of_pos p))
  end.

(** A column value as the driver hands it to JavaScript. *)
Definition js_of_sql (v : sqlval) : jsval :=
  match v with
  | SqlNull => JNull
  | SqlInt n => JNum (float_of_Z n)
  | SqlReal x => JNum x
  | SqlText s => JStr s
  end.

(** JSON.stringify of a field, as res.json and the client apply it: NaN
    and the infinities are written as null. *)
Definition stringify_field (v : jsval) : jsval :=
  match v with
  | JNum x => if PrimFloat.is_nan x || PrimFloat.is_infinity x
              then JNull else JNum x
  | _ => v
  end.

(* ================================================================== *)
(** ** JSON web tokens *)

(** The claims of a token: the identity written by the login route and
    the registered time claims the verifier looks at. *)
Record jwt_payload := {
  jp_id : Z;
  jp_username : string;
  iat : option Z;
  nbf : option Z;
  exp : option Z
}.

Record jwt := {
  jwt_claims : jwt_payload;
  jwt_signature : string
}.

Inductive jwt_error :=
| JsonWebTokenError (message : string)
| NotBeforeError
| TokenExpiredError.

(** What the server calls but does not define. *)
Record externals := {
  (** bcrypt.hash(password, 10), with the salt it draws *)
  bcrypt_hash : string -> string -> string;
  (** bcrypt.compare(password, hash) *)
  bcrypt_compare : string -> string -> bool;
  (** the HS256 signature of the claims under a secret *)
  hs256 : string -> jwt_payload -> string;
  (** the compact serialisation header.payload.signature and its parser *)
  jwt_encode : jwt -> string;
  jwt_decode : string -> option jwt;
  (** a text bound to a REAL column, after column affinity *)
  real_affinity : string -> sqlval;
  (** err.message of a failed INSERT INTO users *)
  unique_message : string -> string -> list user -> string
}.

Fixpoint no_blank (s : string) : bool :=
  match s with
  | EmptyString => true
  | String c s' => negb (c =? " ")%char && no_blank s'
  end.

(** The compact serialisation of [t] can be parsed back, and it is a
    non-empty text without blanks (base64url segments joined by dots). *)
Definition codec_ok (X : externals) (t : jwt) : Prop :=
  jwt_decode X (jwt_encode X t) = Some t /\
  jwt_encode X t <> ""%string /\
  no_blank (jwt_encode X t) = true.

(** const JWT_SECRET = process.env.JWT_SECRET || "smart-traffic-secret" *)
Definition JWT_SECRET (env : option string) : string :=
  match env with
  | Some s => if (s =? "")%string then "smart-traffic-secret" else s
  | None => "smart-traffic-secret"
  end.

Section Jwt.
Variable X : externals.

(** jwt.sign({ id, username }, secret): HS256, [iat] set to the current
    second, no [exp] and no [nbf]. *)
Definition jwt_sign (id : Z) (name secret : string) (now : Z) : string :=
  let claims := {| jp_id := id; jp_username := name;
                   iat := Some now; nbf := None; exp := None |} in
  jwt_encode X {| jwt_claims := claims;
                  jwt_signature := hs256 X secret claims |}.

Definition not_yet_valid (now : Z) (p : jwt_payload) : bool :=
  match nbf p with
  | Some t => now <? t
  | None => false
  end.

Definition expired (now : Z) (p : jwt_payload) : bool :=
  match exp p with
  | Some t => t <=? now
  | None => false
  end.

(** jwt.verify(token, secret) with default options. *)
Definition jwt_verify (token secret : string) (now : Z)
  : jwt_error + jwt_payload :=
  match jwt_decode X token with
  | None => inl (JsonWebTokenError "jwt malformed")
  | Some t =>
      if negb (jwt_signature t =? hs256 X secret (jwt_claims t))%string
      then inl (JsonWebTokenError "invalid signature")
      else if not_yet_valid now (jwt_claims t) then inl NotBeforeError
      else if expired now (jwt_claims t) then inl TokenExpiredError
      else inr (jwt_claims t)
  end.
End Jwt.

(* ================================================================== *)
(** ** Requests, responses and the auth middleware *)

Record request (B : Type) := {
  authorization : option string;
  body : B
}.
Arguments authorization {B} _.
Arguments body {B} _.

Inductive payload :=
| PError (error : string)
| PSuccess
| PLogin (token : string) (name mail : string)
| PSummary (stats : stats_row) (top : list domain_row)
           (protocols : list protocol_row)
| PHistory (rows : list history_row)
| PSettings (config : option settings_row).

(** [Json status payload] is res.status(status).json(payload);
    [ServerError] is the framework's answer to a handler that throws. *)
Inductive response :=
| Json (status : Z) (p : payload)
| ServerError.

(** String.prototype.split with a one-character separator. *)
Fixpoint split (sep : ascii) (s : string) : list string :=
  match s with
  | EmptyString => [EmptyString]
  | String c s' =>
      if (c =? sep)%char then EmptyString :: split sep s'
      else match split sep s' with
           | h :: t => String c h :: t
           | [] => [String c EmptyString]
           end
  end.

(** req.headers.authorization?.split(" ")[1], with the falsy results
    (undefined and the empty string) collapsed to [None]. *)
Definition bearer_token {B} (req : request B) : option string :=
  match authorization req with
  | None => None
  | Some h =>
      match nth_error (split " " h) 1 with
      | Some EmptyString => None
      | Some token => Some token
      | None => None
      end
  end.

Definition unauthorized : response := Json 401 (PError "Unauthorized").
Definition invalid_token : response := Json 401 (PError "Invalid token").

Section Routes.
Variable X : externals.
Variable env_JWT_SECRET : option string.

(** The middleware either answers itself ([inl]) or sets req.user and
    calls next ([inr]). *)
Definition authenticate {B} (now : Z) (req : request B)
  : response + jwt_payload :=
  match bearer_token req with
  | None => inl unauthorized
  | Some token =>
      match jwt_verify X token (JWT_SECRET env_JWT_SECRET) now with
      | inr decoded => inr decoded
      | inl _ => inl invalid_token
      end
  end.

(** app.METHOD(path, authenticate, handler): the handler sees the request
    together with req.user. *)
Definition authenticated {B} (now : Z)
  (handler : jwt_payload -> request B -> database -> response * database)
  (req : request B) (d : database) : response * database :=
  match authenticate now req with
  | inl rejection => (rejection, d)
  | inr user => handler user req d
  end.

(** POST /api/auth/signup *)
Definition signup (name mail password salt : string) (d : database)
  : response * database :=
  let hash := bcrypt_hash X password salt in
  if existsb (fun u => (username u =? name)%string || (email u =? mail)%string)
             (users d)
  then (Json 400 (PError (unique_message X name mail (users d))), d)
  else
    let id := users_seq d + 1 in
    (Json 200 PSuccess,
     {| users := users d ++ [{| user_id := id; username := name;
                                email := mail; password_hash := hash |}];
        traffic_logs := traffic_logs d;
        settings := settings d;
        users_seq := id;
        traffic_seq := traffic_seq d |}).

Definition invalid_credentials : response :=
  Json 401 (PError "Invalid credentials").

(** POST /api/auth/login.  The password is the body field as parsed;
    bcrypt.compare rejects one that is not a string, and nothing in the
    async handler catches that: no answer is sent ([None]). *)
Definition login (mail : string) (password : jsval) (now : Z) (d : database)
  : option response :=
  match find (fun u => (email u =? mail)%string) (users d) with
  | None => Some invalid_credentials
  | Some u =>
      match password with
      | JStr p =>
          if negb (bcrypt_compare X p (password_hash u))
          then Some invalid_credentials
          else Some (Json 200
                       (PLogin (jwt_sign X (user_id u) (username u)
                                         (JWT_SECRET env_JWT_SECRET) now)
                               (username u) (email u)))
      | _ => None
      end
  end.

(** GET /api/traffic/summary *)
Definition summary_handler (now : Z) (_ : jwt_payload) (_ : request unit)
  (d : database) : response * database :=
  (Json 200 (PSummary (stats_query now (traffic_logs d))
                      (topDomains (traffic_logs d))
                      (protocolStats (traffic_logs d))), d).

(** GET /api/traffic/history *)
Definition history_handler (now : Z) (_ : jwt_payload) (_ : request unit)
  (d : database) : response * database :=
  (Json 200 (PHistory (history now (traffic_logs d))), d).

(** GET /api/settings: SELECT * FROM settings WHERE id = 1 *)
Definition get_settings_handler (_ : jwt_payload) (_ : request unit)
  (d : database) : response * database :=
  (Json 200 (PSettings (find (fun r => settings_id r =? 1) (settings d))), d).

Record settings_body := {
  body_data_limit_gb : jsval;
  body_alerts_enabled : jsval
}.

(** What the driver binds for the first parameter of the UPDATE: null and
    undefined are bound as NULL; [None] is the TypeError it raises for a
    boolean. *)
Definition bind_data_limit (v : jsval) : option sqlval :=
  match v with
  | JNum x => Some (if PrimFloat.is_nan x then SqlNull else SqlReal x)
  | JStr s => Some (real_affinity X s)
  | JNull | JUndefined => Some SqlNull
  | JBool _ => None
  end.

(** UPDATE settings SET data_limit_gb = ?, alerts_enabled = ? WHERE id = 1 *)
Definition update_settings (limit : sqlval) (alerts : Z)
  (rows : list settings_row) : list settings_row :=
  map (fun r =>
         if settings_id r =? 1
         then {| settings_id := settings_id r;
                 data_limit_gb := limit;
                 alerts_enabled := alerts |}
         else r)
      rows.

(** POST /api/settings *)
Definition post_settings_handler (_ : jwt_payload)
  (req : request settings_body) (d : database) : response * database :=
  let alerts := if truthy (body_alerts_enabled (body req)) then 1 else 0 in
  match bind_data_limit (body_data_limit_gb (body req)) with
  | None => (ServerError, d)
  | Some limit =>
      (Json 200 PSuccess,
       {| users := users d;
          traffic_logs := traffic_logs d;
          settings := update_settings limit alerts (settings d);
          users_seq := users_seq d;
          traffic_seq := traffic_seq d |})
  end.
End Routes.

(* ================================================================== *)
(** ** Traffic simulator *)

(** A result of Math.random(): the double [mant / 2 ^ expo].  Every double
    in [0, 1) has this shape with [mant] below 2^53 and [expo] between 53
    and 1074. *)
Record unit_double := {
  mant : Z;
  expo : Z
}.

Definition is_unit_double (u : unit_double) : Prop :=
  0 <= mant u < 2 ^ 53 /\ 53 <= expo u <= 1074.

(** Round-to-nearest-even of the integer [N] to 53 significant bits: the
    rounding the product of two doubles undergoes. *)
Definition round53 (N : Z) : Z :=
  let s := Z.max 0 (Z.log2 N + 1 - 53) in
  let q := N / 2 ^ s in
  let r := N mod 2 ^ s in
  let up := (2 ^ s <? 2 * r) || ((2 ^ s =? 2 * r) && Z.odd q) in
  (if up then q + 1 else q) * 2 ^ s.

(** Math.floor(Math.random() * n) for an integer constant [n]. *)
Definition random_below (u : unit_double) (n : Z) : Z :=
  round53 (mant u * n) / 2 ^ expo u.

(** The same computation on the kernel's binary64 numbers, to compare the
    rounding model with on given inputs. *)
Definition machine_double (u : unit_double) : float :=
  FloatOps.SF2Prim
    match mant u with
    | Zpos m => SpecFloat.S754_finite false m (- expo u)
    | _ => SpecFloat.S754_zero false
    end.

(** Math.floor of a non-negative finite double. *)
Definition machine_floor (x : float) : option Z :=
  match FloatOps.Prim2SF x with
  | SpecFloat.S754_zero _ => Some 0
  | SpecFloat.S754_finite false m e =>
      Some (if 0 <=? e then Zpos m * 2 ^ e else Zpos m / 2 ^ (- e))
  | _ => None
  end.

Definition machine_random_below (u : unit_double) (n : Z) : option Z :=
  machine_floor (PrimFloat.mul (machine_double u) (float_of_Z n)).

Definition domains : list string :=
  ["google.com"; "github.com"; "youtube.com"; "netflix.com"; "amazon.com";
   "facebook.com"; "twitter.com"; "reddit.com"; "microsoft.com"; "apple.com"].

Definition protocols : list string := ["HTTPS"; "HTTP"; "DNS"; "TCP"; "UDP"].

(** The six calls of Math.random() in one run of the timer callback, in
    program order. *)
Record draws := {
  draw_domain : unit_double;
  draw_protocol : unit_double;
  draw_upload : unit_double;
  draw_download : unit_double;
  draw_source : unit_double;
  draw_dest : unit_double
}.

(** arr[i]: undefined outside the array. *)
Definition js_index {A} (l : list A) (i : Z) : option A :=
  if i <? 0 then None else nth_error l (Z.to_nat i).

Definition decimal (n : Z) : string := NilZero.string_of_int (Z.to_int n).

(** The values computed before the INSERT. *)
Record generated := {
  g_domain : option string;
  g_protocol : option string;
  g_upload : Z;
  g_download : Z;
  g_sourceIp : string;
  g_destIp : string
}.

Definition generate (d : draws) : generated :=
  {| g_domain :=
       js_index domains (random_below (draw_domain d) (Z.of_nat (length domains)));
     g_protocol :=
       js_index protocols
                (random_below (draw_protocol d) (Z.of_nat (length protocols)));
     g_upload := random_below (draw_upload d) 50000;
     g_download := random_below (draw_download d) 500000;
     g_sourceIp := "192.168.1." ++ decimal (random_below (draw_source d) 255);
     g_destIp := "104.26.12." ++ decimal (random_below (draw_dest d) 255) |}.

(** INSERT INTO traffic_logs (...) VALUES (?, ?, ?, ?, ?, ?); the id is
    the next AUTOINCREMENT value, the timestamp CURRENT_TIMESTAMP. *)
Definition insert_log (now : Z) (sourceIp destIp dom proto : string)
  (up down : Z) (d : database) : traffic_log * database :=
  let row := {| log_id := traffic_seq d + 1;
                timestamp := now;
                source_ip := sourceIp;
                destination_ip := destIp;
                domain := dom;
                protocol := proto;
                upload_bytes := up;
                download_bytes := down |} in
  (row,
   {| users := users d;
      traffic_logs := traffic_logs d ++ [row];
      settings := settings d;
      users_seq := users_seq d;
      traffic_seq := traffic_seq d + 1 |}).

(** *** Broadcast *)

Inductive ready_state := CONNECTING | OPEN | CLOSING | CLOSED.

Record client := {
  client_id : nat;
  readyState : ready_state
}.

Definition is_open (c : client) : bool :=
  match readyState c with
  | OPEN => true
  | _ => false
  end.

(** How one call of client.send ends: the message goes out; or the call
    returns and the transport fails later, unseen by the caller (no
    callback is passed): this is how a send to an open socket fails; or
    the call itself throws, which the library does for a socket that is
    still connecting. *)
Inductive send_result := Sent | Dropped | Thrown.

Inductive completion := Normal | Uncaught.

(** wss.clients.forEach(client => { if (client.readyState === OPEN)
    client.send(...) }): the calls made, in order, and how the loop
    ends.  Nothing catches an exception of [send]. *)
Fixpoint broadcast (send : client -> send_result) (cs : list client)
  : list (client * send_result) * completion :=
  match cs with
  | [] => ([], Normal)
  | c :: cs' =>
      if is_open c then
        match send c with
        | Thrown => ([(c, Thrown)], Uncaught)
        | r => let (calls, k) := broadcast send cs' in ((c, r) :: calls, k)
        end
      else broadcast send cs'
  end.

Record tick_result := {
  tick_db : database;
  tick_entry : option traffic_log;
  tick_calls : list (client * send_result);
  tick_end : completion
}.

(** One run of the setInterval callback.  An undefined domain or protocol
    cannot be bound: stmt.run throws before anything is written. *)
Definition tick (now : Z) (dr : draws) (clients : list client)
  (send : client -> send_result) (d : database) : tick_result :=
  let g := generate dr in
  match g_domain g, g_protocol g with
  | Some dom, Some proto =>
      let (logEntry, d') :=
        insert_log now (g_sourceIp g) (g_destIp g) dom proto
                   (g_upload g) (g_download g) d in
      let (calls, k) := broadcast send clients in
      {| tick_db := d'; tick_entry := Some logEntry;
         tick_calls := calls; tick_end := k |}
  | _, _ =>
      {| tick_db := d; tick_entry := None;
         tick_calls := []; tick_end := Uncaught |}
  end.

(* ================================================================== *)
(** ** The server process *)

(** The database file and whether the process is up.  An exception that
    escapes the timer callback, or a rejection nobody handles in the login
    handler, ends the process; the file stays. *)
Record server := {
  db : database;
  alive : bool
}.

Inductive event :=
| EvSignup (name mail password salt : string)
| EvLogin (mail : string) (password : jsval)
| EvSummary (req : request unit)
| EvHistory (req : request unit)
| EvGetSettings (req : request unit)
| EvPostSettings (req : request settings_body)
| EvTick (dr : draws) (clients : list client) (send : client -> send_result)
| EvRestart.

Inductive output :=
| Response (r : response)
| Ticked (t : tick_result)
| Silent.

Definition boot (d : database) : server :=
  {| db := initialize d; alive := true |}.

Section Server.
Variable X : externals.
Variable env_JWT_SECRET : option string.

Definition respond (rd : response * database) : server * output :=
  ({| db := snd rd; alive := true |}, Response (fst rd)).

(** One event at time [now] (seconds since the epoch). *)
Definition step (s : server) (now : Z) (e : event) : server * output :=
  match e with
  | EvRestart => (boot (db s), Silent)
  | _ =>
    if negb (alive s) then (s, Silent)
    else
      match e with
      | EvSignup name mail password salt =>
          respond (signup X name mail password salt (db s))
      | EvLogin mail password =>
          match login X env_JWT_SECRET mail password now (db s) with
          | Some r => respond (r, db s)
          | None => ({| db := db s; alive := false |}, Silent)
          end
      | EvSummary req =>
          respond (authenticated X env_JWT_SECRET now (summary_handler now)
                                 req (db s))
      | EvHistory req =>
          respond (authenticated X env_JWT_SECRET now (history_handler now)
                                 req (db s))
      | EvGetSettings req =>
          respond (authenticated X env_JWT_SECRET now get_settings_handler
                                 req (db s))
      | EvPostSettings req =>
          respond (authenticated X env_JWT_SECRET now (post_settings_handler X)
                                 req (db s))
      | EvTick dr clients send =>
          let t := tick now dr clients send (db s) in
          ({| db := tick_db t;
              alive := match tick_end t with
                       | Normal => true
                       | Uncaught => false
                       end |},
           Ticked t)
      | EvRestart => (boot (db s), Silent)
      end
  end.

(** A run of the server: the events in order, each with its time. *)
Fixpoint run (s : server) (evs : list (Z * event)) : server :=
  match evs with
  | [] => s
  | (now, e) :: evs' => run (fst (step s now e)) evs'
  end.
End Server.

(** The states the server can be in: started on an empty database file,
    then any events. *)
Definition reachable (X : externals) (env : option string) (s : server)
  : Prop :=
  exists evs, s = run X env (boot empty_database) evs.

(* ================================================================== *)
(** ** Vocabulary of the statements *)

(** The combined bytes of all records of one domain. *)
Definition domain_total (d : string) (t : list traffic_log) : Z :=
  sum_list (map (fun r => upload_bytes r + download_bytes r)
                (filter (fun r => (domain r =? d)%string) t)).

(** Equality of nullable integers, to speak of rows with equal sort keys. *)
Definition sql_eqb (a b : option Z) : bool :=
  match a, b with
  | None, None => true
  | Some x, Some y => x =? y
  | _, _ => false
  end.

Definition has_total (v : option Z) (e : domain_row) : bool :=
  sql_eqb (total_bytes e) v.

(** The records newer than now - 24 hours. *)
Definition recent24 (now : Z) (t : list traffic_log) : list traffic_log :=
  filter (newer_than now hours24) t.

(** All six draws of a tick are doubles in [0, 1). *)
Definition draws_ok (d : draws) : Prop :=
  is_unit_double (draw_domain d) /\ is_unit_double (draw_protocol d) /\
  is_unit_double (draw_upload d) /\ is_unit_double (draw_download d) /\
  is_unit_double (draw_source d) /\ is_unit_double (draw_dest d).

(** The verifier's verdict on a token, spelt out: it parses, its signature
    is the HS256 signature of its claims under the secret, it is past its
    [nbf] and before its [exp] where it carries them; the identity is its
    claims. *)
Definition token_accepted (X : externals) (secret : string) (now : Z)
  (token : string) (user : jwt_payload) : Prop :=
  exists t,
    jwt_decode X token = Some t /\
    jwt_signature t = hs256 X secret (jwt_claims t) /\
    (forall n, nbf (jwt_claims t) = Some n -> n <= now) /\
    (forall e, exp (jwt_claims t) = Some e -> now < e) /\
    user = jwt_claims t.

(** The claims jwt.sign writes for a user at time [now], and the token
    around them. *)
Definition issued_claims (id : Z) (name : string) (now : Z) : jwt_payload :=
  {| jp_id := id; jp_username := name;
     iat := Some now; nbf := None; exp := None |}.

Definition issued_jwt (X : externals) (secret : string) (id : Z)
  (name : string) (now : Z) : jwt :=
  {| jwt_claims := issued_claims id name now;
     jwt_signature := hs256 X secret (issued_claims id name now) |}.

(** The settings table holds exactly one row, and its id is 1. *)
Definition settings_singleton (d : database) : Prop :=
  exists r, settings d = [r] /\ settings_id r = 1.

(** *** A small instance of the externals, to run the model on

    One user, alice, whose password is "secret"; her token is the text
    "eyJ.alice.sig". *)
Definition sample_claims : jwt_payload :=
  {| jp_id := 1; jp_username := "alice";
     iat := Some 1700000000; nbf := None; exp := None |}.

Definition sample_jwt : jwt :=
  {| jwt_claims := sample_claims; jwt_signature := "sig" |}.

Definition sample_externals : externals :=
  {| bcrypt_hash := fun password salt => (salt ++ "$" ++ password)%string;
     bcrypt_compare := fun password hash => (hash =? "salt$" ++ password)%string;
     hs256 := fun _ _ => "sig";
     jwt_encode := fun _ => "eyJ.alice.sig";
     jwt_decode := fun s => if (s =? "eyJ.alice.sig")%string
                            then Some sample_jwt else None;
     real_affinity := fun s => SqlText s;
     unique_message := fun _ _ _ => "UNIQUE constraint failed" |}.

Definition alice : user :=
  {| user_id := 1; username := "alice"; email := "alice@example.org";
     password_hash := "salt$secret" |}.

Definition sample_database : database :=
  {| users := [alice]; traffic_logs := []; settings := [default_settings];
     users_seq := 1; traffic_seq := 0 |}.



Definition alice_header : option string := Some "Bearer eyJ.alice.sig".

(** Two open clients; the first one's send throws. *)
Definition client1 : client := {| client_id := 1; readyState := OPEN |}.

Definition first_throws (c : client) : send_result :=
  if Nat.eqb (client_id c) 1 then Thrown else Sent.

Definition sample_draws : draws :=
  let u := {| mant := 2 ^ 52; expo := 53 |} in
  {| draw_domain := u; draw_protocol := u; draw_upload := u;
     draw_download := u; draw_source := u; draw_dest := u |}.

(** No record of the table is stamped later than [now]. *)
Definition stamped_by (now : Z) (t : list traffic_log) : Prop :=
  forall r, In r t -> timestamp r <= now.

(** The events of a run come at non-decreasing times, from [now] on. *)
Fixpoint times_ascend (now : Z) (evs : list (Z * event)) : Prop :=
  match evs with
  | [] => True
  | (n, _) :: evs' => now <= n /\ times_ascend n evs'
  end.

Fixpoint last_time (now : Z) (evs : list (Z * event)) : Z :=
  match evs with
  | [] => now
  | (n, _) :: evs' => last_time n evs'
  end.

(* ================================================================== *)
(** ** The dashboard and the landing page (client side) *)

(** A message of the push channel after JSON.parse: the server sends
    { type: "TRAFFIC_UPDATE", data: logEntry }. *)
Record ws_message := {
  msg_type : string;
  msg_data : traffic_log
}.

Definition traffic_update (r : traffic_log) : ws_message :=
  {| msg_type := "TRAFFIC_UPDATE"; msg_data := r |}.

(** ws.onmessage: setLogs(prev => [message.data, ...prev].slice(0, 50))
    for a TRAFFIC_UPDATE, nothing otherwise. *)
Definition onmessage (m : ws_message) (logs : list traffic_log)
  : list traffic_log :=
  if (msg_type m =? "TRAFFIC_UPDATE")%string
  then firstn 50 (msg_data m :: logs)
  else logs.

(** The live log after the messages received so far, oldest first. *)
Definition live_logs (msgs : list ws_message) : list traffic_log :=
  fold_left (fun logs m => onmessage m logs) msgs [].

(** The settings state of the dashboard after setSettings(await
    settingsRes.json()): the two fields of the row the form works on, as
    res.json(config) put them on the wire. *)
Definition settings_state (r : settings_row) : settings_body :=
  {| body_data_limit_gb := stringify_field (js_of_sql (data_limit_gb r));
     body_alerts_enabled :=
       stringify_field (JNum (float_of_Z (alerts_enabled r))) |}.

(** onClick of the alerts switch:
    setSettings({...settings, alerts_enabled: !settings.alerts_enabled}) *)
Definition toggle_alerts (s : settings_body) : settings_body :=
  {| body_data_limit_gb := body_data_limit_gb s;
     body_alerts_enabled := JBool (negb (truthy (body_alerts_enabled s))) |}.

(** The request of the settings form: body JSON.stringify(settings),
    header Authorization: Bearer <token>. *)
Definition save_request (token : string) (s : settings_body)
  : request settings_body :=
  {| authorization := Some ("Bearer " ++ token)%string;
     body := {| body_data_limit_gb := stringify_field (body_data_limit_gb s);
                body_alerts_enabled := stringify_field (body_alerts_enabled s) |} |}.

(** What handleSubmit of the landing page does with the parsed answer. *)
Inductive landing_action :=
| CallLogin (token name mail : string)
| SwitchToLogin
| Alert (message : option string)
| LogError.

(** if (data.token) login(data.token, data.user)
    else if (data.success) setIsLogin(true) else alert(data.error);
    an answer that is not JSON ends in the catch. *)
Definition handle_answer (r : response) : landing_action :=
  match r with
  | ServerError => LogError
  | Json _ (PLogin token name mail) =>
      if (token =? "")%string then Alert None else CallLogin token name mail
  | Json _ PSuccess => SwitchToLogin
  | Json _ (PError e) => Alert (Some e)
  | Json _ _ => Alert None
  end.

Record form_data := {
  form_username : string;
  form_email : string;
  form_password : string
}.

(** handleSubmit against the server: the endpoint chosen by isLogin, the
    form as body, the answer handled; [salt] is the salt bcrypt draws
    should the request be a signup. *)
Definition handleSubmit (X : externals) (env : option string)
  (isLogin : bool) (f : form_data) (salt : string) (now : Z) (d : database)
  : landing_action * database :=
  if isLogin
  then (match login X env (form_email f) (JStr (form_password f)) now d with
        | Some r => handle_answer r
        | None => LogError
        end, d)
  else let (r, d') := signup X (form_username f) (form_email f)
                             (form_password f) salt d in
       (handle_answer r, d').

(** *** Vocabulary of the further statements *)

(** The sum of the sums a grouped query reports. *)
Definition sum_nullable (l : list (option Z)) : Z :=
  sum_list (map (fun v => match v with Some x => x | None => 0 end) l).

(** No byte count of the table is negative. *)
Definition bytes_nonneg (t : list traffic_log) : Prop :=
  forall r, In r t -> 0 <= upload_bytes r /\ 0 <= download_bytes r.

(** The uniqueness the users table declares, with the ids below the
    AUTOINCREMENT counter. *)
Definition users_unique (d : database) : Prop :=
  NoDup (map username (users d)) /\
  NoDup (map email (users d)) /\
  NoDup (map user_id (users d)) /\
  0 <= users_seq d /\
  forall u, In u (users d) -> 1 <= user_id u <= users_seq d.

(** The ids of traffic_logs are 1, 2, ... in insertion order and the
    AUTOINCREMENT counter is the number of rows. *)
Definition ids_sequential (d : database) : Prop :=
  traffic_seq d = Z.of_nat (length (traffic_logs d)) /\
  map log_id (traffic_logs d)
    = map Z.of_nat (seq 1 (length (traffic_logs d))).

(** The rows are in the order of their timestamps. *)
Definition chronological (t : list traffic_log) : Prop :=
  StronglySorted (fun a b => timestamp a <= timestamp b) t.

Definition is_settings_post (e : event) : bool :=
  match e with
  | EvPostSettings _ => true
  | _ => false
  end.


Definition is_update (m : ws_message) : bool :=
  (msg_type m =? "TRAFFIC_UPDATE")%string.

(* ================================================================== *)
(** * Facts about the query engine's list functions *)

Section StableSortFacts.
Context {A : Type}.
Variable leb : A -> A -> bool.

Lemma insert_perm x l : Permutation (insert leb x l) (x :: l).
Proof.
  induction l as [|y l IH]; simpl; [reflexivity|].
  destruct (leb x y); [reflexivity|].
  rewrite IH. apply perm_swap.
Qed.

Lemma sort_perm l : Permutation (sort leb l) l.
Proof.
  induction l as [|x l IH]; simpl; [constructor|].
  rewrite insert_perm. now constructor.
Qed.

Lemma sort_length l : length (sort leb l) = length l.
Proof. apply Permutation_length, sort_perm. Qed.

Lemma sort_In x l : In x (sort leb l) <-> In x l.
Proof.
  split; apply Permutation_in; [|symmetry]; apply sort_perm.
Qed.

Lemma sort_NoDup l : NoDup l -> NoDup (sort leb l).
Proof.
  intro H. eapply Permutation_NoDup; [symmetry; apply sort_perm|exact H].
Qed.

Hypothesis leb_total : forall x y, leb x y = false -> leb y x = true.
Hypothesis leb_trans :
  forall x y z, leb x y = true -> leb y z = true -> leb x z = true.

Let R x y := leb x y = true.

Lemma insert_sorted x l :
  StronglySorted R l -> StronglySorted R (insert leb x l).
Proof.
  induction 1 as [|y l Hs IH Hy]; simpl.
  - repeat constructor.
  - destruct (leb x y) eqn:E.
    + constructor; [now constructor|].
      constructor; [exact E|].
      eapply Forall_impl; [|exact Hy].
      intros z Hz. now apply leb_trans with y.
    + constructor; [exact IH|].
      eapply Permutation_Forall; [symmetry; apply insert_perm|].
      constructor; [now apply leb_total|exact Hy].
Qed.

Lemma sort_sorted l : StronglySorted R (sort leb l).
Proof.
  induction l as [|x l IH]; simpl; [constructor|].
  now apply insert_sorted.
Qed.

(** Stability: restricted to a class of mutually equivalent elements, the
    sorted list reads exactly like the input. *)
Lemma insert_filter (p : A -> bool) x l :
  (forall a b, p a = true -> p b = true -> leb a b = true) ->
  filter p (insert leb x l) = filter p (x :: l).
Proof.
  intro Hp. induction l as [|y l IH]; [reflexivity|].
  simpl insert. destruct (leb x y) eqn:E; [reflexivity|].
  simpl. simpl in IH. rewrite IH.
  destruct (p x) eqn:Px, (p y) eqn:Py; try reflexivity.
  rewrite (Hp x y Px Py) in E. discriminate.
Qed.

Lemma sort_stable (p : A -> bool) l :
  (forall a b, p a = true -> p b = true -> leb a b = true) ->
  filter p (sort leb l) = filter p l.
Proof.
  intro Hp. induction l as [|x l IH]; [reflexivity|].
  simpl sort. rewrite insert_filter by exact Hp.
  simpl. now rewrite IH.
Qed.
End StableSortFacts.

Section DistinctFacts.
Context {K : Type}.
Variable eqb : K -> K -> bool.
Hypothesis eqb_spec : forall a b, reflect (a = b) (eqb a b).

Lemma distinct_In k l : In k (distinct eqb l) <-> In k l.
Proof.
  induction l as [|a l IH]; simpl; [tauto|].
  rewrite filter_In, IH.
  destruct (eqb_spec a k) as [->|Hne]; simpl; intuition congruence.
Qed.

Lemma distinct_NoDup l : NoDup (distinct eqb l).
Proof.
  induction l as [|a l IH]; simpl; constructor.
  - rewrite filter_In. intros [_ H].
    destruct (eqb_spec a a); [discriminate|congruence].
  - now apply NoDup_filter.
Qed.
End DistinctFacts.

Lemma firstn_filter_prefix {A} (p : A -> bool) (n : nat) (l : list A) :
  exists m, filter p (firstn n l) = firstn m (filter p l).
Proof.
  revert n. induction l as [|x l IH]; intro n.
  - exists 0%nat. now rewrite firstn_nil.
  - destruct n as [|n]; [now exists 0%nat|].
    simpl. destruct (IH n) as [m Hm].
    destruct (p x); [exists (S m); simpl; now rewrite Hm|now exists m].
Qed.

Lemma In_firstn {A} (x : A) n l : In x (firstn n l) -> In x l.
Proof.
  intro H. rewrite <- (firstn_skipn n l). apply in_or_app. now left.
Qed.

Lemma firstn_StronglySorted {A} (R : A -> A -> Prop) n l :
  StronglySorted R l -> StronglySorted R (firstn n l).
Proof.
  intro H. revert n. induction H as [|a l Hs IH Ha]; intro n.
  - rewrite firstn_nil. constructor.
  - destruct n; simpl; constructor; [apply IH|].
    rewrite Forall_forall in *. intros x Hx. apply Ha.
    eapply In_firstn. exact Hx.
Qed.

Lemma StronglySorted_app_cross {A} (R : A -> A -> Prop) l1 l2 :
  StronglySorted R (l1 ++ l2) ->
  forall a b, In a l1 -> In b l2 -> R a b.
Proof.
  induction l1 as [|x l1 IH]; simpl; intros H a b Ha Hb; [contradiction|].
  apply StronglySorted_inv in H. destruct H as [Hs Hx].
  destruct Ha as [->|Ha]; [|now apply IH].
  rewrite Forall_forall in Hx. apply Hx, in_or_app. now right.
Qed.

Lemma sql_leb_total a b : sql_leb a b = false -> sql_leb b a = true.
Proof.
  destruct a as [x|], b as [y|]; simpl; try easy.
  rewrite Z.leb_gt, Z.leb_le. lia.
Qed.

Lemma sql_leb_trans a b c :
  sql_leb a b = true -> sql_leb b c = true -> sql_leb a c = true.
Proof.
  destruct a as [x|], b as [y|], c as [z|]; simpl; try easy.
  rewrite !Z.leb_le. lia.
Qed.

Lemma sql_leb_refl a : sql_leb a a = true.
Proof. destruct a; simpl; [apply Z.leb_refl|reflexivity]. Qed.

Lemma SUM_some x l : SUM (x :: l) = Some (sum_list (x :: l)).
Proof. reflexivity. Qed.


(* ================================================================== *)
(** * Aggregator *)

Lemma StronglySorted_weaken {A} (R R' : A -> A -> Prop) l :
  (forall a b, In a l -> In b l -> R a b -> R' a b) ->
  StronglySorted R l -> StronglySorted R' l.
Proof.
  intros HR H. induction H as [|a l Hs IH Ha]; constructor.
  - apply IH. intros x y Hx Hy. apply HR; now right.
  - rewrite Forall_forall in *. intros x Hx.
    apply HR; [now left|now right|now apply Ha].
Qed.

Lemma by_domain_domains t : map dr_domain (by_domain t) = domain_groups t.
Proof.
  unfold by_domain. rewrite map_map. simpl. apply map_id.
Qed.

Lemma domain_groups_In d t :
  In d (domain_groups t) <-> exists r, In r t /\ domain r = d.
Proof.
  unfold domain_groups.
  rewrite sort_In, (distinct_In _ String.eqb_spec), in_map_iff.
  split; intros [r [H1 H2]]; exists r; tauto.
Qed.

Lemma domain_groups_NoDup t : NoDup (domain_groups t).
Proof. apply sort_NoDup, (distinct_NoDup _ String.eqb_spec). Qed.

Lemma by_domain_In e t :
  In e (by_domain t) ->
  (exists r, In r t /\ domain r = dr_domain e) /\
  total_bytes e = Some (domain_total (dr_domain e) t).
Proof.
  unfold by_domain. rewrite in_map_iff. intros [d [<- Hd]]. simpl.
  apply domain_groups_In in Hd. split; [exact Hd|].
  destruct Hd as [r [Hr Hdom]].
  assert (Hin : In r (filter (in_domain d) t)).
  { apply filter_In. split; [exact Hr|]. now apply String.eqb_eq. }
  unfold domain_total.
  change (filter (fun r0 => (domain r0 =? d)%string) t)
    with (filter (in_domain d) t).
  destruct (filter (in_domain d) t) as [|r0 rs]; [contradiction|reflexivity].
Qed.

Lemma topDomains_incl e t : In e (topDomains t) -> In e (by_domain t).
Proof.
  intro H. apply In_firstn in H. now apply sort_In in H.
Qed.

Lemma has_total_ties v a b :
  has_total v a = true -> has_total v b = true -> total_desc a b = true.
Proof.
  unfold has_total, total_desc, sql_eqb, sql_leb.
  destruct (total_bytes a) as [x|], (total_bytes b) as [y|], v as [z|];
    try discriminate; try reflexivity.
  rewrite !Z.eqb_eq, Z.leb_le. lia.
Qed.

(** *** The order of the rows: by total, then by domain, both descending *)

Lemma string_leb_trans (a b c : string) :
  String.leb a b = true -> String.leb b c = true -> String.leb a c = true.
Proof.
  unfold String.leb. intros Hab Hbc.
  destruct (String.compare a b) eqn:Eab; try discriminate;
    destruct (String.compare b c) eqn:Ebc; try discriminate.
  - apply String.compare_eq_iff in Eab. subst. now rewrite Ebc.
  - apply String.compare_eq_iff in Eab. subst. now rewrite Ebc.
  - apply String.compare_eq_iff in Ebc. subst. now rewrite Eab.
  - assert (E : String.compare a c = Lt).
    { apply OrderedTypeEx.String_as_OT.cmp_lt.
      eapply OrderedTypeEx.String_as_OT.lt_trans;
        apply OrderedTypeEx.String_as_OT.cmp_lt; eassumption. }
    now rewrite E.
Qed.

Lemma string_ltb_of_leb (a b : string) :
  String.leb a b = true -> a <> b -> String.ltb a b = true.
Proof.
  unfold String.leb, String.ltb. intros H Hne.
  destruct (String.compare a b) eqn:E; [|reflexivity|discriminate].
  apply String.compare_eq_iff in E. contradiction.
Qed.

Section LexSort.
Context {A : Type}.
Variable leb : A -> A -> bool.
Variable S : A -> A -> Prop.
Hypothesis leb_total : forall x y, leb x y = false -> leb y x = true.
Hypothesis leb_trans :
  forall x y z, leb x y = true -> leb y z = true -> leb x z = true.

Let lex (a b : A) : Prop := leb a b = true /\ (leb b a = true -> S a b).

Lemma insert_lex x l :
  StronglySorted lex l -> Forall (S x) l ->
  StronglySorted lex (insert leb x l).
Proof.
  induction 1 as [|y l Hs IH Hy]; intro Hx; simpl.
  - repeat constructor.
  - inversion Hx as [|? ? Sxy Sxl]; subst.
    destruct (leb x y) eqn:E.
    + constructor; [now constructor|].
      constructor; [split; [exact E|intros _; exact Sxy]|].
      rewrite Forall_forall in *. intros z Hz. split.
      * apply leb_trans with y; [exact E|]. now apply Hy.
      * intros _. now apply Sxl.
    + constructor; [now apply IH|].
      eapply Permutation_Forall; [symmetry; apply insert_perm|].
      constructor; [|exact Hy].
      split; [now apply leb_total|]. intro E'. congruence.
Qed.

(** A stable sort of a list that is in S-order is in the order "by [leb],
    and by S among equals". *)
Lemma sort_lex l : StronglySorted S l -> StronglySorted lex (sort leb l).
Proof.
  induction 1 as [|x l Hs IH Hx]; simpl; [constructor|].
  apply insert_lex; [exact IH|].
  eapply Permutation_Forall; [symmetry; apply sort_perm|exact Hx].
Qed.
End LexSort.

Lemma StronglySorted_strict_by {A} (R : A -> A -> Prop) (l : list A) :
  NoDup l -> StronglySorted R l ->
  StronglySorted (fun a b => R a b /\ a <> b) l.
Proof.
  intros Hnd Hs. induction Hs as [|a l Hs IH Ha]; constructor.
  - apply IH. now inversion Hnd.
  - inversion Hnd as [|? ? Hnotin _]; subst.
    rewrite Forall_forall in *. intros x Hx. split; [now apply Ha|].
    intros ->. contradiction.
Qed.

Lemma domain_groups_descending t :
  StronglySorted (fun a b => String.ltb b a = true) (domain_groups t).
Proof.
  eapply StronglySorted_weaken;
    [|apply StronglySorted_strict_by;
       [apply domain_groups_NoDup|apply sort_sorted]].
  - intros a b _ _ [H Hne]. apply string_ltb_of_leb; [exact H|congruence].
  - intros x y H. destruct (String.leb_total y x) as [E|E]; [congruence|exact E].
  - intros x y z H1 H2. now apply string_leb_trans with y.
Qed.

Lemma by_domain_descending t :
  StronglySorted
    (fun a b => String.ltb (dr_domain b) (dr_domain a) = true) (by_domain t).
Proof.
  unfold by_domain.
  induction (domain_groups_descending t) as [|d l Hs IH Hd]; simpl;
    constructor; [exact IH|].
  rewrite Forall_forall in *. intros e He.
  apply in_map_iff in He. destruct He as [d' [<- Hd']]. simpl. now apply Hd.
Qed.

Lemma ranked_lex t :
  StronglySorted
    (fun a b =>
       domain_total (dr_domain b) t < domain_total (dr_domain a) t \/
       (domain_total (dr_domain b) t = domain_total (dr_domain a) t /\
        String.ltb (dr_domain b) (dr_domain a) = true))
    (sort total_desc (by_domain t)).
Proof.
  eapply StronglySorted_weaken;
    [|apply (sort_lex total_desc
               (fun a b => String.ltb (dr_domain b) (dr_domain a) = true));
      [| |apply by_domain_descending]].
  - intros a b Ha Hb [Hab Hba]. unfold total_desc in *.
    apply sort_In in Ha. apply sort_In in Hb.
    destruct (by_domain_In _ _ Ha) as [_ Ea].
    destruct (by_domain_In _ _ Hb) as [_ Eb].
    rewrite Ea, Eb in *. simpl in *. apply Z.leb_le in Hab.
    destruct (Z.eq_dec (domain_total (dr_domain b) t)
                       (domain_total (dr_domain a) t)) as [E|E]; [|lia].
    right. split; [exact E|]. apply Hba. apply Z.leb_le. lia.
  - intros x y. apply sql_leb_total.
  - intros x y z H1 H2. unfold total_desc in *.
    eapply sql_leb_trans; eassumption.
Qed.

(** C1, as the code has it.  The topDomains list of the summary groups the
    records by domain and reports for each reported domain the sum of
    upload_bytes + download_bytes over the records of that domain; each
    domain is reported once; the list has at most 5 entries (exactly
    min(5, number of domains)); it is in descending order of the sum, and
    among equal sums in descending order of the domain name; a domain that
    is left out comes after every reported one in that same order; two
    records (100, 200) and (300, 50) of domain "x" give the single entry
    ("x", 650). *)
Theorem topDomains_spec (t : list traffic_log) :
  (forall e, In e (topDomains t) ->
     (exists r, In r t /\ domain r = dr_domain e) /\
     total_bytes e
     = Some (sum_list (map (fun r => upload_bytes r + download_bytes r)
                           (filter (fun r => (domain r =? dr_domain e)%string)
                                   t)))) /\
  NoDup (map dr_domain (topDomains t)) /\
  (length (topDomains t) <= 5)%nat /\
  length (topDomains t)
    = Nat.min 5 (length (distinct String.eqb (map domain t))) /\
  StronglySorted
    (fun a b =>
       domain_total (dr_domain b) t < domain_total (dr_domain a) t \/
       (domain_total (dr_domain b) t = domain_total (dr_domain a) t /\
        String.ltb (dr_domain b) (dr_domain a) = true))
    (topDomains t) /\
  (forall e r, In e (topDomains t) -> In r t ->
     ~ In (domain r) (map dr_domain (topDomains t)) ->
     domain_total (domain r) t < domain_total (dr_domain e) t \/
     (domain_total (domain r) t = domain_total (dr_domain e) t /\
      String.ltb (domain r) (dr_domain e) = true)) /\
  (forall id1 ts1 id2 ts2 src1 dst1 proto1 src2 dst2 proto2,
     topDomains
       [ {| log_id := id1; timestamp := ts1; source_ip := src1;
            destination_ip := dst1; domain := "x"; protocol := proto1;
            upload_bytes := 100; download_bytes := 200 |};
         {| log_id := id2; timestamp := ts2; source_ip := src2;
            destination_ip := dst2; domain := "x"; protocol := proto2;
            upload_bytes := 300; download_bytes := 50 |} ]
     = [ {| dr_domain := "x"; total_bytes := Some 650 |} ]) /\
  (forall now user req d,
     traffic_logs d = t ->
     exists stats protos,
       fst (summary_handler now user req d)
       = Json 200 (PSummary stats (topDomains t) protos)).
Proof.
  pose proof (ranked_lex t) as Hranked.
  split; [|split; [|split; [|split; [|split; [|split; [|split]]]]]].
  - intros e He. now apply by_domain_In, topDomains_incl.
  - unfold topDomains. rewrite <- firstn_map.
    apply NoDup_app_remove_r
      with (l' := skipn 5 (map dr_domain (sort total_desc (by_domain t)))).
    rewrite firstn_skipn.
    eapply Permutation_NoDup.
    + apply Permutation_map. symmetry. apply sort_perm.
    + rewrite by_domain_domains. apply domain_groups_NoDup.
  - apply firstn_le_length.
  - unfold topDomains. rewrite length_firstn, sort_length.
    unfold by_domain. rewrite length_map. unfold domain_groups.
    now rewrite sort_length.
  - now apply firstn_StronglySorted.
  - intros e r He Hr Hout.
    assert (Hd : In (domain r) (domain_groups t))
      by (apply domain_groups_In; now exists r).
    rewrite <- by_domain_domains in Hd. apply in_map_iff in Hd.
    destruct Hd as [e' [Ee' He']]. rewrite <- Ee'.
    apply (sort_In total_desc) in He'.
    rewrite <- (firstn_skipn 5 (sort total_desc (by_domain t)))
      in He', Hranked.
    apply in_app_or in He'. destruct He' as [He'|He'].
    + exfalso. apply Hout. rewrite <- Ee'. now apply in_map.
    + exact (StronglySorted_app_cross _ _ _ Hranked e e' He He').
  - intros. reflexivity.
  - intros now user req d <-. unfold summary_handler. simpl.
    eexists. eexists. reflexivity.
Qed.

(** C1 as stated fails on ties.  Domain "a" is inserted before domain "b"
    with the same total: the list reports "b" first, which is neither the
    order of insertion nor the ascending order of the groups. *)
Lemma topDomains_tie_counterexample :
  map domain
      [ {| log_id := 1; timestamp := 1700000000; source_ip := "192.168.1.7";
           destination_ip := "104.26.12.9"; domain := "a"; protocol := "TCP";
           upload_bytes := 100; download_bytes := 200 |};
        {| log_id := 2; timestamp := 1700000002; source_ip := "192.168.1.8";
           destination_ip := "104.26.12.3"; domain := "b"; protocol := "TCP";
           upload_bytes := 100; download_bytes := 200 |} ]
    = ["a"; "b"] /\
  topDomains
      [ {| log_id := 1; timestamp := 1700000000; source_ip := "192.168.1.7";
           destination_ip := "104.26.12.9"; domain := "a"; protocol := "TCP";
           upload_bytes := 100; download_bytes := 200 |};
        {| log_id := 2; timestamp := 1700000002; source_ip := "192.168.1.8";
           destination_ip := "104.26.12.3"; domain := "b"; protocol := "TCP";
           upload_bytes := 100; download_bytes := 200 |} ]
    = [ {| dr_domain := "b"; total_bytes := Some 300 |};
        {| dr_domain := "a"; total_bytes := Some 300 |} ].
Proof. split; reflexivity. Qed.

Lemma StronglySorted_map {A B} (f : A -> B) (R : B -> B -> Prop) l :
  StronglySorted (fun a b => R (f a) (f b)) l -> StronglySorted R (map f l).
Proof.
  induction 1 as [|a l Hs IH Ha]; simpl; constructor; [exact IH|].
  rewrite Forall_forall in *. intros y Hy.
  apply in_map_iff in Hy. destruct Hy as [x [<- Hx]]. now apply Ha.
Qed.

Lemma StronglySorted_strict (l : list Z) :
  NoDup l -> StronglySorted Z.le l -> StronglySorted Z.lt l.
Proof.
  intros Hnd Hs. induction Hs as [|a l Hs IH Ha]; constructor.
  - apply IH. now inversion Hnd.
  - inversion Hnd as [|? ? Hnotin _]; subst.
    rewrite Forall_forall in *. intros x Hx.
    specialize (Ha x Hx). assert (x <> a) by (intros ->; contradiction).
    lia.
Qed.

Lemma history_hours_perm now t :
  Permutation (map hour (history now t))
              (distinct Z.eqb (map hour_of (recent24 now t))).
Proof.
  unfold history. fold (recent24 now t).
  rewrite (Permutation_map hour (sort_perm hour_asc _)).
  rewrite map_map. simpl. rewrite map_id. apply sort_perm.
Qed.

Lemma history_In b now t :
  In b (history now t) ->
  upload b
    = SUM (map upload_bytes (filter (in_hour (hour b)) (recent24 now t))) /\
  download b
    = SUM (map download_bytes (filter (in_hour (hour b)) (recent24 now t))) /\
  exists r, In r (filter (in_hour (hour b)) (recent24 now t)).
Proof.
  unfold history. fold (recent24 now t).
  rewrite sort_In, in_map_iff. intros [h [<- Hh]]. simpl.
  repeat split.
  rewrite sort_In, (distinct_In _ Z.eqb_spec), in_map_iff in Hh. destruct Hh as [r [Hr Hin]].
  exists r. apply filter_In. split; [exact Hin|].
  unfold in_hour. now apply Z.eqb_eq.
Qed.

(** C2.  history returns exactly one bucket for every hour (timestamp
    divided by 3600, rounded down) that holds a record with timestamp later
    than now - 24 h; with no record stamped after [now], as in every run
    of the server, these are the records of the trailing 24 hours.  A
    bucket carries the sum of upload_bytes and, separately, of
    download_bytes of the records of its hour among those later than
    now - 24 h; records outside that window do not influence the result;
    the buckets are in strictly ascending order of hour. *)
Theorem history_spec (now : Z) (t : list traffic_log) :
  (forall h, In h (map hour (history now t)) <->
             exists r, In r t /\ now - 24 * 3600 < timestamp r /\
                       timestamp r / 3600 = h) /\
  (stamped_by now t ->
   forall h, In h (map hour (history now t)) <->
             exists r, In r t /\ now - 24 * 3600 < timestamp r <= now /\
                       timestamp r / 3600 = h) /\
  NoDup (map hour (history now t)) /\
  (forall b, In b (history now t) ->
     upload b
     = Some (sum_list (map upload_bytes
               (filter (fun r => (now - 24 * 3600 <? timestamp r)
                                 && (timestamp r / 3600 =? hour b)) t))) /\
     download b
     = Some (sum_list (map download_bytes
               (filter (fun r => (now - 24 * 3600 <? timestamp r)
                                 && (timestamp r / 3600 =? hour b)) t)))) /\
  (forall t',
     (forall r, now - 24 * 3600 < timestamp r -> (In r t <-> In r t')) ->
     filter (fun r => now - 24 * 3600 <? timestamp r) t
       = filter (fun r => now - 24 * 3600 <? timestamp r) t' ->
     history now t = history now t') /\
  history now t
    = history now (filter (fun r => now - 24 * 3600 <? timestamp r) t) /\
  StronglySorted Z.lt (map hour (history now t)) /\
  (forall user req d,
     traffic_logs d = t ->
     fst (history_handler now user req d) = Json 200 (PHistory (history now t))).
Proof.
  assert (Hnd : NoDup (map hour (history now t))).
  { eapply Permutation_NoDup; [symmetry; apply history_hours_perm|].
    apply (distinct_NoDup _ Z.eqb_spec). }
  assert (Hwin : forall r, In r (recent24 now t) <->
                            In r t /\ now - 24 * 3600 < timestamp r).
  { intro r. unfold recent24, newer_than, hours24, seconds_per_hour.
    rewrite filter_In, Z.ltb_lt. tauto. }
  assert (Hhours : forall h, In h (map hour (history now t)) <->
             exists r, In r t /\ now - 24 * 3600 < timestamp r /\
                       timestamp r / 3600 = h).
  { intro h. split.
    - intro H. apply (Permutation_in _ (history_hours_perm now t)) in H.
      rewrite (distinct_In _ Z.eqb_spec), in_map_iff in H.
      destruct H as [r [E Hr]]. apply Hwin in Hr. exists r.
      split; [tauto|]. split; [tauto|exact E].
    - intros [r (Hr & Ht & E)].
      apply (Permutation_in _ (Permutation_sym (history_hours_perm now t))).
      rewrite (distinct_In _ Z.eqb_spec), in_map_iff. exists r.
      split; [exact E|]. apply Hwin. now split. }
  assert (Hfilter : forall h,
            filter (fun r => (now - 24 * 3600 <? timestamp r)
                             && (timestamp r / 3600 =? h)) t
            = filter (in_hour h) (recent24 now t)).
  { intro h. unfold recent24. clear. induction t as [|r t IH]; [reflexivity|].
    simpl. unfold newer_than at 1, hours24, seconds_per_hour.
    change (24 * 3600) with 86400 in *.
    destruct (now - 86400 <? timestamp r); simpl; [|exact IH].
    unfold in_hour at 1, hour_of, seconds_per_hour.
    destruct (timestamp r / 3600 =? h); [now rewrite IH|exact IH]. }
  assert (Hrecent : filter (fun r => now - 24 * 3600 <? timestamp r) t
                    = recent24 now t) by reflexivity.
  assert (Hidem : history now t = history now (recent24 now t)).
  { unfold history. fold (recent24 now t).
    assert (E : filter (newer_than now hours24) (recent24 now t)
                = recent24 now t).
    { unfold recent24. apply forallb_filter_id.
      apply forallb_forall. intros r Hr. now apply filter_In in Hr. }
    now rewrite E. }
  split; [exact Hhours|].
  split; [|split; [exact Hnd|split; [|split; [|split; [|split]]]]].
  - intros Hst h. rewrite Hhours. split; intros [r (Hr & Ht & E)]; exists r.
    + specialize (Hst r Hr). repeat split; try assumption; lia.
    + repeat split; try assumption; lia.
  - intros b Hb. destruct (history_In _ _ _ Hb) as [Eu [Ed [r Hr]]].
    rewrite Eu, Ed, !Hfilter.
    destruct (filter (in_hour (hour b)) (recent24 now t)); [contradiction|].
    split; reflexivity.
  - intros t' _ E. rewrite !Hrecent in E.
    rewrite Hidem. rewrite E.
    assert (Hidem' : history now t' = history now (recent24 now t')).
    { unfold history. fold (recent24 now t').
      assert (E' : filter (newer_than now hours24) (recent24 now t')
                   = recent24 now t').
      { unfold recent24. apply forallb_filter_id.
        apply forallb_forall. intros r Hr. now apply filter_In in Hr. }
      now rewrite E'. }
    rewrite Hidem'. f_equal.
  - rewrite Hrecent. exact Hidem.
  - apply StronglySorted_strict; [exact Hnd|].
    apply StronglySorted_map with (R := Z.le).
    unfold history.
    eapply StronglySorted_weaken; [|apply sort_sorted].
    + intros a b _ _ H. unfold hour_asc in H. now apply Z.leb_le.
    + intros x y H. unfold hour_asc in *. apply Z.leb_gt in H.
      apply Z.leb_le. lia.
    + intros x y z H1 H2. unfold hour_asc in *.
      rewrite Z.leb_le in *. lia.
  - intros user req d <-. reflexivity.
Qed.

(** C9.  When no record is newer than now - 30 days, the stats object of
    the summary has total_upload and total_download NULL, not 0, and
    total_packets 0. *)
Theorem stats_empty_window (now : Z) (t : list traffic_log) :
  (forall r, In r t -> ~ now - 30 * 24 * 3600 < timestamp r) ->
  stats_query now t
    = {| total_upload := None; total_download := None; total_packets := 0 |}
  /\ total_upload (stats_query now t) <> Some 0
  /\ total_download (stats_query now t) <> Some 0
  /\ (forall user req d,
        traffic_logs d = t ->
        exists top protos,
          fst (summary_handler now user req d)
          = Json 200 (PSummary {| total_upload := None;
                                  total_download := None;
                                  total_packets := 0 |} top protos)).
Proof.
  intro Hold.
  assert (E : filter (newer_than now days30) t = []).
  { induction t as [|r t IH]; [reflexivity|]. simpl.
    assert (Hr : newer_than now days30 r = false).
    { unfold newer_than, days30, seconds_per_hour. apply Z.ltb_ge.
      specialize (Hold r (or_introl eq_refl)). lia. }
    rewrite Hr. apply IH. intros x Hx. apply Hold. now right. }
  assert (Es : stats_query now t
               = {| total_upload := None; total_download := None;
                    total_packets := 0 |}).
  { unfold stats_query. now rewrite E. }
  rewrite Es. simpl.
  split; [reflexivity|]. split; [discriminate|]. split; [discriminate|].
  intros user req d <-. unfold summary_handler. simpl. rewrite Es.
  eexists. eexists. reflexivity.
Qed.

Lemma stats_empty_window_witness :
  stats_query 3000000
    [ {| log_id := 1; timestamp := 100; source_ip := "192.168.1.7";
         destination_ip := "104.26.12.9"; domain := "github.com";
         protocol := "TCP"; upload_bytes := 10; download_bytes := 20 |} ]
  = {| total_upload := None; total_download := None; total_packets := 0 |}.
Proof.
  apply stats_empty_window.
  intros r [<-|[]]. simpl. lia.
Defined.

(* ================================================================== *)
(** * Traffic simulator *)

Lemma round53_range (N n : Z) :
  0 < n -> 0 <= N <= (2 ^ 53 - 1) * n ->
  0 <= round53 N < n * 2 ^ 53.
Proof.
  intros Hn HN. unfold round53.
  set (s := Z.max 0 (Z.log2 N + 1 - 53)).
  assert (Hs : 0 <= s) by (unfold s; lia).
  assert (Hpow : 0 < 2 ^ s) by (apply Z.pow_pos_nonneg; lia).
  pose proof (Z.div_mod N (2 ^ s) ltac:(lia)) as Hdm.
  pose proof (Z.mod_pos_bound N (2 ^ s) Hpow) as Hr.
  assert (Hq : 0 <= N / 2 ^ s) by (apply Z.div_pos; lia).
  set (q := N / 2 ^ s) in *. set (r := N mod 2 ^ s) in *.
  destruct ((2 ^ s <? 2 * r) || ((2 ^ s =? 2 * r) && Z.odd q)) eqn:Up.
  - (* rounded up: at least half a unit was cut off *)
    assert (Hhalf : 2 ^ s <= 2 * r).
    { apply orb_true_iff in Up. destruct Up as [Up|Up].
      - apply Z.ltb_lt in Up. lia.
      - apply andb_true_iff in Up. destruct Up as [Up _].
        apply Z.eqb_eq in Up. lia. }
    assert (Hs1 : 1 <= s).
    { destruct (Z.eq_dec s 0) as [E|E]; [|lia].
      rewrite E in *. change (2 ^ 0) with 1 in *. lia. }
    assert (HNpos : 0 < N) by nia.
    assert (Es : s = Z.log2 N - 52) by (unfold s; lia).
    pose proof (Z.log2_spec N HNpos) as [Hlo _].
    assert (E2 : 2 ^ Z.log2 N = 2 ^ 53 * 2 ^ (s - 1)).
    { rewrite <- Z.pow_add_r by lia. f_equal. lia. }
    assert (E3 : 2 ^ s = 2 * 2 ^ (s - 1)).
    { replace s with (1 + (s - 1)) at 1 by lia.
      rewrite Z.pow_add_r by lia. reflexivity. }
    assert (Hp : 0 < 2 ^ (s - 1)) by (apply Z.pow_pos_nonneg; lia).
    set (P := 2 ^ (s - 1)) in *.
    assert (HP : P < n) by nia.
    split; nia.
  - split; nia.
Qed.

Lemma random_below_range (u : unit_double) (n : Z) :
  is_unit_double u -> 0 < n ->
  0 <= random_below u n < n.
Proof.
  intros [Hm He] Hn. unfold random_below.
  destruct (round53_range (mant u * n) n Hn ltac:(nia)) as [Hlo Hhi].
  assert (Hpow : 2 ^ 53 <= 2 ^ expo u) by (apply Z.pow_le_mono_r; lia).
  assert (Hpos : 0 < 2 ^ expo u) by lia.
  split.
  - apply Z.div_pos; lia.
  - apply Z.div_lt_upper_bound; [lia|nia].
Qed.

Lemma js_index_In {A} (l : list A) (i : Z) :
  0 <= i < Z.of_nat (length l) ->
  exists x, js_index l i = Some x /\ In x l.
Proof.
  intro Hi. unfold js_index.
  destruct (i <? 0) eqn:E; [apply Z.ltb_lt in E; lia|].
  destruct (nth_error l (Z.to_nat i)) as [x|] eqn:Hn.
  - exists x. split; [reflexivity|]. eapply nth_error_In; eassumption.
  - apply nth_error_None in Hn. lia.
Qed.

(** With draws in [0, 1) both array reads hit an element. *)
Lemma generate_defined (dr : draws) :
  draws_ok dr ->
  exists dom proto,
    g_domain (generate dr) = Some dom /\ In dom domains /\
    g_protocol (generate dr) = Some proto /\ In proto protocols.
Proof.
  intros (Hdom & Hproto & _).
  destruct (js_index_In domains
              (random_below (draw_domain dr) (Z.of_nat (length domains))))
    as [dom [Edom Hin_dom]].
  { apply random_below_range; [exact Hdom|]. simpl. lia. }
  destruct (js_index_In protocols
              (random_below (draw_protocol dr) (Z.of_nat (length protocols))))
    as [proto [Eproto Hin_proto]].
  { apply random_below_range; [exact Hproto|]. simpl. lia. }
  exists dom, proto. unfold generate. cbn [g_domain g_protocol].
  repeat split; assumption.
Qed.

Lemma tick_inserts (now : Z) (dr : draws) (clients : list client)
  (send : client -> send_result) (d : database) :
  draws_ok dr ->
  exists dom proto,
    In dom domains /\ In proto protocols /\
    tick now dr clients send d
    = {| tick_db := snd (insert_log now (g_sourceIp (generate dr))
                           (g_destIp (generate dr)) dom proto
                           (g_upload (generate dr)) (g_download (generate dr)) d);
         tick_entry := Some (fst (insert_log now (g_sourceIp (generate dr))
                           (g_destIp (generate dr)) dom proto
                           (g_upload (generate dr)) (g_download (generate dr)) d));
         tick_calls := fst (broadcast send clients);
         tick_end := snd (broadcast send clients) |}.
Proof.
  intro Hdr. destruct (generate_defined dr Hdr)
    as (dom & proto & Edom & Hdom & Eproto & Hproto).
  exists dom, proto. split; [exact Hdom|]. split; [exact Hproto|].
  unfold tick. rewrite Edom, Eproto. unfold insert_log.
  now destruct (broadcast send clients).
Qed.

Example random_below_top :
  random_below {| mant := 2 ^ 53 - 1; expo := 53 |} 50000 = 49999.
Proof. reflexivity. Qed.

(** The product is rounded before the floor is taken: here the exact
    product lies just below 6. *)
Example random_below_rounds :
  random_below {| mant := 5404319552844595; expo := 53 |} 10 = 6 /\
  (5404319552844595 * 10) / 2 ^ 53 = 5.
Proof. split; reflexivity. Qed.

(** On the corner cases of each constant of the simulator (the largest
    draw, draws whose exact product lies just below an integer, small and
    subnormal draws) the model and the machine's multiplication agree. *)
Example random_below_agrees_with_machine :
  forallb
    (fun n =>
       forallb
         (fun u => match machine_random_below u n with
                   | Some k => k =? random_below u n
                   | None => false
                   end)
         [ {| mant := 2 ^ 53 - 1; expo := 53 |};
           {| mant := 2 ^ 53 - 1; expo := 54 |};
           {| mant := 5404319552844595; expo := 53 |};
           {| mant := 6305039478318694; expo := 53 |};
           {| mant := 282578800148737; expo := 53 |};
           {| mant := 565157600297474; expo := 53 |};
           {| mant := 2 ^ 52 + 1; expo := 53 |};
           {| mant := 123456789012345; expo := 60 |};
           {| mant := 1; expo := 53 |};
           {| mant := 0; expo := 53 |};
           {| mant := 2 ^ 52 - 1; expo := 1074 |} ])
    [10; 5; 50000; 500000; 255]
  = true.
Proof. vm_compute. reflexivity. Qed.

(** C3.  For every six doubles in [0, 1) that Math.random() can return,
    the timer callback inserts a record whose upload_bytes lies in
    [0, 50000) and whose download_bytes lies in [0, 500000), whose domain
    is one of the 10 fixed domains and whose protocol is one of the 5 fixed
    protocols. *)
Theorem tick_record_bounds (now : Z) (dr : draws) (clients : list client)
  (send : client -> send_result) (d : database) :
  draws_ok dr ->
  exists r,
    tick_entry (tick now dr clients send d) = Some r /\
    traffic_logs (tick_db (tick now dr clients send d))
      = traffic_logs d ++ [r] /\
    0 <= upload_bytes r < 50000 /\
    0 <= download_bytes r < 500000 /\
    In (domain r) domains /\ length domains = 10%nat /\
    In (protocol r) protocols /\ length protocols = 5%nat.
Proof.
  intro Hdr.
  destruct (tick_inserts now dr clients send d Hdr)
    as (dom & proto & Hdom & Hproto & ->).
  destruct Hdr as (_ & _ & Hup & Hdown & _ & _).
  unfold insert_log, generate. cbn.
  eexists. split; [reflexivity|]. cbn.
  split; [reflexivity|].
  split; [apply random_below_range; [exact Hup|lia]|].
  split; [apply random_below_range; [exact Hdown|lia]|].
  repeat split; assumption.
Qed.

Lemma tick_record_bounds_witness :
  let u := {| mant := 2 ^ 53 - 1; expo := 53 |} in
  let dr := {| draw_domain := u; draw_protocol := u; draw_upload := u;
               draw_download := u; draw_source := u; draw_dest := u |} in
  exists r,
    tick_entry (tick 1700000000 dr [] (fun _ => Sent) empty_database) = Some r /\
    traffic_logs (tick_db (tick 1700000000 dr [] (fun _ => Sent) empty_database))
      = traffic_logs empty_database ++ [r] /\
    0 <= upload_bytes r < 50000 /\
    0 <= download_bytes r < 500000 /\
    In (domain r) domains /\ length domains = 10%nat /\
    In (protocol r) protocols /\ length protocols = 5%nat.
Proof.
  apply tick_record_bounds.
  unfold draws_ok, is_unit_double. simpl. lia.
Defined.

(* ================================================================== *)
(** * Session gate and login *)

Example bearer_token_plain :
  bearer_token {| authorization := Some "Bearer abc.def.ghi"; body := tt |}
  = Some "abc.def.ghi".
Proof. reflexivity. Qed.

Example bearer_token_no_scheme :
  bearer_token {| authorization := Some "abc.def.ghi"; body := tt |} = None.
Proof. reflexivity. Qed.

Example bearer_token_absent :
  bearer_token {| authorization := None; body := tt |} = None.
Proof. reflexivity. Qed.

Lemma not_yet_valid_false now p :
  not_yet_valid now p = false <-> (forall n, nbf p = Some n -> n <= now).
Proof.
  unfold not_yet_valid. destruct (nbf p) as [t|].
  - rewrite Z.ltb_ge. split; [intros H n [= <-]; exact H|intro H; now apply H].
  - split; [discriminate|reflexivity].
Qed.

Lemma expired_false now p :
  expired now p = false <-> (forall e, exp p = Some e -> now < e).
Proof.
  unfold expired. destruct (exp p) as [t|].
  - rewrite Z.leb_gt. split; [intros H e [= <-]; exact H|intro H; now apply H].
  - split; [discriminate|reflexivity].
Qed.

(** jwt.verify returns the claims exactly for the accepted tokens. *)
Lemma jwt_verify_accepts X token secret now user :
  jwt_verify X token secret now = inr user <->
  token_accepted X secret now token user.
Proof.
  unfold jwt_verify, token_accepted. split.
  - destruct (jwt_decode X token) as [t|]; [|discriminate].
    destruct (jwt_signature t =? hs256 X secret (jwt_claims t))%string eqn:Es;
      [|discriminate]. simpl.
    destruct (not_yet_valid now (jwt_claims t)) eqn:En; [discriminate|].
    destruct (expired now (jwt_claims t)) eqn:Ee; [discriminate|].
    intros [= <-]. exists t.
    repeat split; try reflexivity.
    + now apply String.eqb_eq.
    + now apply not_yet_valid_false.
    + now apply expired_false.
  - intros [t (Hd & Hs & Hn & He & ->)]. rewrite Hd.
    apply String.eqb_eq in Hs. rewrite Hs. simpl.
    apply not_yet_valid_false in Hn. apply expired_false in He.
    now rewrite Hn, He.
Qed.

Lemma jwt_verify_rejects X token secret now :
  (exists e, jwt_verify X token secret now = inl e) <->
  (forall user, ~ token_accepted X secret now token user).
Proof.
  split.
  - intros [e He] user Hacc. apply jwt_verify_accepts in Hacc. congruence.
  - intro H. destruct (jwt_verify X token secret now) as [e|user] eqn:E.
    + now exists e.
    + exfalso. apply (H user). now apply jwt_verify_accepts.
Qed.

(** C4.  For every request to an authenticated route exactly one of three
    things happens.  No token is presented: the answer is 401
    "Unauthorized".  A token is presented that the verifier does not accept
    (it does not parse, its signature is wrong, it has expired or is not
    yet valid): the answer is 401 "Invalid token".  In both cases the
    answer and the database do not depend on the handler, which is not run.
    Otherwise the handler runs with the token's claims as req.user.  The
    four routes summary, history, settings GET and settings POST go through
    this gate. *)
Theorem authenticate_gate (X : externals) (env : option string) (B : Type)
  (now : Z) (req : request B) :
  ( (bearer_token req = None /\
     forall handler d,
       authenticated X env now handler req d
         = (Json 401 (PError "Unauthorized"), d))
    \/
    (exists token,
       bearer_token req = Some token /\
       (forall user, ~ token_accepted X (JWT_SECRET env) now token user) /\
       forall handler d,
         authenticated X env now handler req d
           = (Json 401 (PError "Invalid token"), d))
    \/
    (exists token user,
       bearer_token req = Some token /\
       token_accepted X (JWT_SECRET env) now token user /\
       forall handler d,
         authenticated X env now handler req d = handler user req d) )
  /\
  (forall token user t,
     token_accepted X (JWT_SECRET env) now token user ->
     jwt_decode X token = Some t ->
     jwt_signature t = hs256 X (JWT_SECRET env) (jwt_claims t) /\
     forall e, exp (jwt_claims t) = Some e -> now < e)
  /\
  (forall d r,
     step X env {| db := d; alive := true |} now (EvSummary r)
       = respond (authenticated X env now (summary_handler now) r d) /\
     step X env {| db := d; alive := true |} now (EvHistory r)
       = respond (authenticated X env now (history_handler now) r d) /\
     step X env {| db := d; alive := true |} now (EvGetSettings r)
       = respond (authenticated X env now get_settings_handler r d))
  /\
  (forall d r,
     step X env {| db := d; alive := true |} now (EvPostSettings r)
       = respond (authenticated X env now (post_settings_handler X) r d)).
Proof.
  split; [|split; [|split]].
  - unfold authenticated, authenticate.
    destruct (bearer_token req) as [token|] eqn:Et.
    + destruct (jwt_verify X token (JWT_SECRET env) now) as [e|user] eqn:Ev.
      * right; left. exists token. split; [reflexivity|]. split.
        -- apply jwt_verify_rejects. now exists e.
        -- reflexivity.
      * right; right. exists token, user. split; [reflexivity|]. split.
        -- now apply jwt_verify_accepts.
        -- reflexivity.
    + left. split; reflexivity.
  - intros token user t [t' (Hd & Hs & _ & He & _)] Hdec.
    rewrite Hdec in Hd. injection Hd as <-. split; assumption.
  - intros d r. repeat split.
  - intros d r. reflexivity.
Qed.

Lemma split_no_blank (s : string) :
  no_blank s = true -> split " " s = [s].
Proof.
  induction s as [|c s IH]; [reflexivity|].
  simpl. intro H. apply andb_true_iff in H. destruct H as [Hc Hs].
  apply negb_true_iff in Hc. rewrite Hc, (IH Hs). reflexivity.
Qed.

Lemma bearer_token_of_header {B} (token : string) (b : B) :
  no_blank token = true -> token <> EmptyString ->
  bearer_token {| authorization := Some ("Bearer " ++ token)%string;
                  body := b |}
  = Some token.
Proof.
  intros Hnb Hne. unfold bearer_token. cbn [authorization].
  change ("Bearer " ++ token)%string
    with (String "B" (String "e" (String "a" (String "r" (String "e"
           (String "r" (String " " token))))))).
  cbn [split Ascii.eqb Bool.eqb]. rewrite (split_no_blank token Hnb).
  cbn [nth_error]. destruct token; [contradiction|reflexivity].
Qed.

Lemma login_success (X : externals) (env : option string)
  (mail password : string) (now : Z) (d : database) (u : user) :
  find (fun u => (email u =? mail)%string) (users d) = Some u ->
  bcrypt_compare X password (password_hash u) = true ->
  login X env mail (JStr password) now d
  = Some (Json 200
            (PLogin (jwt_encode X (issued_jwt X (JWT_SECRET env) (user_id u)
                                              (username u) now))
                    (username u) (email u))).
Proof.
  intros Hf Hc. unfold login. rewrite Hf, Hc. reflexivity.
Qed.

(** C10.  A successful login at time [issued] returns a token whose claims
    carry no [exp] (and no [nbf]); presented as "Bearer <token>" at any
    time [now] whatever, it passes the gate: authenticate sets req.user to
    the user's id and name, and every authenticated handler runs. *)
Theorem issued_token_never_expires (X : externals) (env : option string)
  (mail password : string) (issued : Z) (d : database) (u : user) :
  find (fun u => (email u =? mail)%string) (users d) = Some u ->
  bcrypt_compare X password (password_hash u) = true ->
  codec_ok X (issued_jwt X (JWT_SECRET env) (user_id u) (username u) issued) ->
  exists token,
    login X env mail (JStr password) issued d
      = Some (Json 200 (PLogin token (username u) (email u))) /\
    jwt_decode X token
      = Some (issued_jwt X (JWT_SECRET env) (user_id u) (username u) issued) /\
    exp (issued_claims (user_id u) (username u) issued) = None /\
    forall (now : Z) (B : Type) (b : B),
      let req := {| authorization := Some ("Bearer " ++ token)%string;
                    body := b |} in
      expired now (issued_claims (user_id u) (username u) issued) = false /\
      authenticate X env now req
        = inr (issued_claims (user_id u) (username u) issued) /\
      forall handler d',
        authenticated X env now handler req d'
          = handler (issued_claims (user_id u) (username u) issued) req d'.
Proof.
  intros Hf Hc (Hdec & Hne & Hnb).
  eexists. split; [apply login_success; eassumption|].
  split; [exact Hdec|]. split; [reflexivity|].
  intros now B b req.
  assert (Ha : authenticate X env now req
               = inr (issued_claims (user_id u) (username u) issued)).
  { unfold authenticate, req.
    rewrite (bearer_token_of_header _ b Hnb Hne).
    unfold jwt_verify. rewrite Hdec. cbn [jwt_signature jwt_claims issued_jwt].
    rewrite String.eqb_refl. reflexivity. }
  split; [reflexivity|]. split; [exact Ha|].
  intros handler d'. unfold authenticated. now rewrite Ha.
Qed.

Lemma issued_token_never_expires_witness :
  exists token,
    login sample_externals None "alice@example.org" (JStr "secret") 1700000000
          sample_database
      = Some (Json 200 (PLogin token "alice" "alice@example.org")) /\
    jwt_decode sample_externals token
      = Some (issued_jwt sample_externals (JWT_SECRET None) 1 "alice"
                         1700000000) /\
    exp (issued_claims 1 "alice" 1700000000) = None /\
    forall (now : Z) (B : Type) (b : B),
      expired now (issued_claims 1 "alice" 1700000000) = false /\
      authenticate sample_externals None now
                   {| authorization := Some ("Bearer " ++ token)%string;
                      body := b |}
        = inr (issued_claims 1 "alice" 1700000000) /\
      forall handler d',
        authenticated sample_externals None now handler
                      {| authorization := Some ("Bearer " ++ token)%string;
                         body := b |} d'
          = handler (issued_claims 1 "alice" 1700000000)
                    {| authorization := Some ("Bearer " ++ token)%string;
                       body := b |} d'.
Proof.
  apply (issued_token_never_expires sample_externals None
           "alice@example.org" "secret" 1700000000 sample_database alice).
  - reflexivity.
  - reflexivity.
  - repeat split. discriminate.
Defined.

(** With a text as password, a login with an email that matches no user
    and a login with the email of a user whose password does not verify
    get the same answer, 401 with error "Invalid credentials". *)
Lemma login_text_failures_alike (X : externals)
  (env : option string) (d : database) (now1 now2 : Z)
  (mail1 password1 mail2 password2 : string) (u : user) :
  find (fun u => (email u =? mail1)%string) (users d) = None ->
  find (fun u => (email u =? mail2)%string) (users d) = Some u ->
  bcrypt_compare X password2 (password_hash u) = false ->
  login X env mail1 (JStr password1) now1 d
    = Some (Json 401 (PError "Invalid credentials")) /\
  login X env mail2 (JStr password2) now2 d
    = Some (Json 401 (PError "Invalid credentials")).
Proof.
  intros H1 H2 Hc. unfold login. rewrite H1, H2, Hc. simpl.
  split; reflexivity.
Qed.

(** C7 fails in the code.  A login whose password field is missing, or is
    anything but a text, verifies against no hash.  With an email that
    matches no user the answer is 401 "Invalid credentials" and the server
    goes on; with the email of a user, bcrypt.compare rejects, nothing
    catches it: no answer is sent, the process is down and no later
    request is answered.  The two causes are told apart, by
    this one request, for every user table. *)
Theorem login_without_password_tells (X : externals) (env : option string)
  (d : database) (now : Z) (known unknown : string) (password : jsval)
  (u : user) :
  find (fun u => (email u =? known)%string) (users d) = Some u ->
  find (fun u => (email u =? unknown)%string) (users d) = None ->
  match password with JStr _ => False | _ => True end ->
  login X env unknown password now d
    = Some (Json 401 (PError "Invalid credentials")) /\
  login X env known password now d = None /\
  step X env {| db := d; alive := true |} now (EvLogin unknown password)
    = ({| db := d; alive := true |},
       Response (Json 401 (PError "Invalid credentials"))) /\
  step X env {| db := d; alive := true |} now (EvLogin known password)
    = ({| db := d; alive := false |}, Silent) /\
  forall now' e,
    snd (step X env
              (fst (step X env {| db := d; alive := true |} now
                         (EvLogin known password)))
              now' e)
    = Silent.
Proof.
  intros Hk Hu Hp.
  assert (E1 : login X env unknown password now d
               = Some (Json 401 (PError "Invalid credentials"))).
  { unfold login. now rewrite Hu. }
  assert (E2 : login X env known password now d = None).
  { unfold login. rewrite Hk. destruct password; try reflexivity.
    contradiction. }
  split; [exact E1|]. split; [exact E2|].
  cbn [step negb alive db]. rewrite E1, E2. cbn [fst snd respond].
  split; [reflexivity|]. split; [reflexivity|].
  intros now' e. destruct e; reflexivity.
Qed.

Lemma login_without_password_tells_witness :
  login sample_externals None "mallory@example.org" JUndefined 1700000000
        sample_database
    = Some (Json 401 (PError "Invalid credentials")) /\
  login sample_externals None "alice@example.org" JUndefined 1700000000
        sample_database
    = None /\
  alive (fst (step sample_externals None
                   {| db := sample_database; alive := true |} 1700000000
                   (EvLogin "alice@example.org" JUndefined)))
    = false.
Proof.
  destruct (login_without_password_tells sample_externals None
              sample_database 1700000000 "alice@example.org"
              "mallory@example.org" JUndefined alice)
    as (H1 & H2 & _ & H4 & _).
  - reflexivity.
  - reflexivity.
  - exact I.
  - split; [exact H1|]. split; [exact H2|]. now rewrite H4.
Defined.

(** Every answer of the login route is either the token of the user found
    or the one generic error; there is no answer only for a user found
    and a password that is not a text. *)
Lemma login_answers (X : externals) (env : option string)
  (mail : string) (password : jsval) (now : Z) (d : database) :
  login X env mail password now d
    = Some (Json 401 (PError "Invalid credentials")) \/
  (exists u p, find (fun u => (email u =? mail)%string) (users d) = Some u /\
            password = JStr p /\
            bcrypt_compare X p (password_hash u) = true /\
            login X env mail password now d
            = Some (Json 200 (PLogin (jwt_sign X (user_id u) (username u)
                                               (JWT_SECRET env) now)
                                     (username u) (email u)))) \/
  (exists u, find (fun u => (email u =? mail)%string) (users d) = Some u /\
             (forall p, password <> JStr p) /\
             login X env mail password now d = None).
Proof.
  unfold login.
  destruct (find _ (users d)) as [u|]; [|now left].
  destruct password as [| |b|x|p];
    try (right; right; exists u; repeat split; intros p Hp; discriminate Hp).
  destruct (bcrypt_compare X p (password_hash u)) eqn:E; simpl.
  - right. left. exists u, p. repeat split. exact E.
  - now left.
Qed.

(* ================================================================== *)
(** * Store invariant *)

Lemma authenticated_cases (X : externals) (env : option string) {B}
  (now : Z) handler (req : request B) (d : database) :
  (exists rejection, authenticated X env now handler req d = (rejection, d)) \/
  (exists user, authenticated X env now handler req d = handler user req d).
Proof.
  unfold authenticated. destruct (authenticate X env now req) as [r|user].
  - left. now exists r.
  - right. now exists user.
Qed.

Lemma initialize_traffic d : traffic_logs (initialize d) = traffic_logs d.
Proof. unfold initialize. now destruct (existsb _ _). Qed.

Lemma initialize_singleton d :
  settings_singleton d -> initialize d = d.
Proof.
  intros [r [E Hid]]. unfold initialize. rewrite E. simpl.
  rewrite Hid. reflexivity.
Qed.

Lemma boot_empty_singleton : settings_singleton (db (boot empty_database)).
Proof. exists default_settings. split; reflexivity. Qed.

Lemma update_settings_singleton limit alerts rows :
  (exists r, rows = [r] /\ settings_id r = 1) ->
  exists r, update_settings limit alerts rows = [r] /\ settings_id r = 1 /\
            data_limit_gb r = limit /\ alerts_enabled r = alerts.
Proof.
  intros [r [-> Hid]]. unfold update_settings. simpl. rewrite Hid. simpl.
  eexists. repeat split.
Qed.

Lemma tick_traffic now dr clients send d :
  exists added,
    traffic_logs (tick_db (tick now dr clients send d))
      = traffic_logs d ++ added /\
    settings (tick_db (tick now dr clients send d)) = settings d.
Proof.
  unfold tick. destruct (g_domain (generate dr)) as [dom|];
    [destruct (g_protocol (generate dr)) as [proto|]|].
  - unfold insert_log. destruct (broadcast send clients) as [calls k].
    eexists. split; reflexivity.
  - exists []. now rewrite app_nil_r.
  - exists []. now rewrite app_nil_r.
Qed.

(** What one event does to the two tables. *)
Lemma step_store (X : externals) (env : option string) (s : server)
  (now : Z) (e : event) :
  settings_singleton (db s) ->
  settings_singleton (db (fst (step X env s now e))) /\
  (exists added,
     traffic_logs (db (fst (step X env s now e)))
       = traffic_logs (db s) ++ added) /\
  match e with
  | EvTick _ _ _ => True
  | _ => traffic_logs (db (fst (step X env s now e))) = traffic_logs (db s)
  end.
Proof.
  intro Hs.
  assert (Hno : forall s', db s' = db s ->
            settings_singleton (db s') /\
            (exists added, traffic_logs (db s') = traffic_logs (db s) ++ added) /\
            traffic_logs (db s') = traffic_logs (db s)).
  { intros s' ->. split; [exact Hs|]. split; [|reflexivity].
    exists []. now rewrite app_nil_r. }
  assert (Hboot : db (boot (db s)) = db s).
  { unfold boot. simpl. now apply initialize_singleton. }
  destruct e; unfold step; try (destruct (alive s); simpl negb; cbv iota);
    try (destruct (Hno s eq_refl) as (? & ? & ?); now repeat split);
    try (destruct (Hno (boot (db s)) Hboot) as (? & ? & ?); now repeat split).
  - (* signup *)
    unfold respond, signup. simpl.
    destruct (existsb _ (users (db s))); simpl.
    + exact (Hno s eq_refl).
    + split; [exact Hs|]. split; [|reflexivity].
      exists []. now rewrite app_nil_r.
  - (* login *)
    destruct (login X env mail password now (db s)) as [r|].
    + exact (Hno (fst (respond (r, db s))) eq_refl).
    + exact (Hno {| db := db s; alive := false |} eq_refl).
  - (* summary *)
    destruct (authenticated_cases X env now (summary_handler now) req (db s))
      as [[r ->]|[user ->]]; exact (Hno s eq_refl).
  - (* history *)
    destruct (authenticated_cases X env now (history_handler now) req (db s))
      as [[r ->]|[user ->]]; exact (Hno s eq_refl).
  - (* settings, read *)
    destruct (authenticated_cases X env now get_settings_handler req (db s))
      as [[r ->]|[user ->]]; exact (Hno s eq_refl).
  - (* settings, write *)
    destruct (authenticated_cases X env now (post_settings_handler X) req (db s))
      as [[r ->]|[user ->]]; [exact (Hno s eq_refl)|].
    unfold respond, post_settings_handler. simpl.
    destruct (bind_data_limit X _) as [limit|]; simpl; [|exact (Hno s eq_refl)].
    split; [|split; [exists []; now rewrite app_nil_r|reflexivity]].
    destruct (update_settings_singleton limit
                (if truthy (body_alerts_enabled (body req)) then 1 else 0)
                (settings (db s)) Hs) as [r' (E & Hid & _)].
    exists r'. now split.
  - (* tick *)
    simpl.
    destruct (tick_traffic now dr clients send (db s)) as [added [Et Eset]].
    split; [|split; [now exists added|exact I]].
    destruct Hs as [r [E Hid]]. exists r. split; [now rewrite Eset|exact Hid].
Qed.

Lemma run_singleton (X : externals) (env : option string) evs :
  forall s, settings_singleton (db s) ->
            settings_singleton (db (run X env s evs)).
Proof.
  induction evs as [|[now e] evs IH]; intros s Hs; [exact Hs|].
  simpl. apply IH. now apply step_store.
Qed.

(** C8.  In every state the server can reach, the settings table holds
    exactly one row, with id 1; and whatever event comes next, the
    traffic_logs table afterwards is the table before followed by the rows
    added (no row is changed or removed), only the timer adds rows, and the
    settings table still holds exactly one row with id 1. *)
Theorem store_invariant (X : externals) (env : option string) (s : server) :
  reachable X env s ->
  settings_singleton (db s) /\
  forall (now : Z) (e : event),
    settings_singleton (db (fst (step X env s now e))) /\
    (exists added,
       traffic_logs (db (fst (step X env s now e)))
         = traffic_logs (db s) ++ added) /\
    match e with
    | EvTick _ _ _ => True
    | _ => traffic_logs (db (fst (step X env s now e))) = traffic_logs (db s)
    end.
Proof.
  intros [evs ->].
  assert (Hs : settings_singleton (db (run X env (boot empty_database) evs))).
  { apply run_singleton, boot_empty_singleton. }
  split; [exact Hs|].
  intros now e. now apply step_store.
Qed.

Lemma store_invariant_witness :
  settings_singleton (db (boot empty_database)) /\
  forall (now : Z) (e : event),
    settings_singleton
      (db (fst (step sample_externals None (boot empty_database) now e))) /\
    (exists added,
       traffic_logs
         (db (fst (step sample_externals None (boot empty_database) now e)))
         = traffic_logs (db (boot empty_database)) ++ added) /\
    match e with
    | EvTick _ _ _ => True
    | _ => traffic_logs
             (db (fst (step sample_externals None (boot empty_database) now e)))
           = traffic_logs (db (boot empty_database))
    end.
Proof.
  apply (store_invariant sample_externals None (boot empty_database)).
  exists []. reflexivity.
Defined.

(** Rows are stamped with the time of the tick that inserts them, so in a
    run whose events come at non-decreasing times no row is stamped later
    than the last event. *)
Lemma tick_stamps now dr clients send d :
  exists added,
    traffic_logs (tick_db (tick now dr clients send d))
      = traffic_logs d ++ added /\
    forall r, In r added -> timestamp r = now.
Proof.
  unfold tick. destruct (g_domain (generate dr)) as [dom|];
    [destruct (g_protocol (generate dr)) as [proto|]|];
    try (exists []; rewrite app_nil_r; split; [reflexivity|intros r []]).
  unfold insert_log. destruct (broadcast send clients) as [calls k].
  eexists. split; [reflexivity|]. intros r [<-|[]]. reflexivity.
Qed.

Lemma stamped_by_mono now now' t :
  now <= now' -> stamped_by now t -> stamped_by now' t.
Proof. intros H Hs r Hr. specialize (Hs r Hr). lia. Qed.

Lemma step_stamped (X : externals) (env : option string) (s : server)
  (now : Z) (e : event) :
  settings_singleton (db s) ->
  stamped_by now (traffic_logs (db s)) ->
  stamped_by now (traffic_logs (db (fst (step X env s now e)))).
Proof.
  intros Hset Hs.
  destruct (step_store X env s now e Hset) as (_ & _ & Hsame).
  destruct e; try (rewrite Hsame; exact Hs).
  unfold step. destruct (alive s); simpl; [|exact Hs].
  destruct (tick_stamps now dr clients send (db s)) as [added [-> Ha]].
  intros r Hr. apply in_app_or in Hr. destruct Hr as [Hr|Hr].
  - now apply Hs.
  - rewrite (Ha r Hr). lia.
Qed.

Lemma run_stamped (X : externals) (env : option string) evs :
  forall s now,
    settings_singleton (db s) ->
    stamped_by now (traffic_logs (db s)) ->
    times_ascend now evs ->
    stamped_by (last_time now evs) (traffic_logs (db (run X env s evs))).
Proof.
  induction evs as [|[n e] evs IH]; intros s now Hset Hs Hasc; [exact Hs|].
  destruct Hasc as [Hle Hasc]. simpl.
  apply IH; [now apply step_store| |exact Hasc].
  apply step_stamped; [exact Hset|].
  now apply stamped_by_mono with now.
Qed.

(* ================================================================== *)
(** * Settings *)



(* ================================================================== *)
(** * Broadcast *)


(** The loop has no handler of its own: were a send to throw, it would
    end there. *)
Lemma broadcast_throw (send : client -> send_result) (c : client)
  (cs : list client) :
  is_open c = true -> send c = Thrown ->
  broadcast send (c :: cs) = ([(c, Thrown)], Uncaught).
Proof.
  intros Ho Hs. simpl. now rewrite Ho, Hs.
Qed.




(* ================================================================== *)
(** * Accounts *)

Lemma existsb_taken name mail (us : list user) :
  existsb (fun u => (username u =? name)%string || (email u =? mail)%string) us
    = false ->
  ~ In name (map username us) /\ ~ In mail (map email us).
Proof.
  induction us as [|u us IH]; simpl; [tauto|].
  intro H. apply orb_false_iff in H. destruct H as [Hu Hrest].
  apply orb_false_iff in Hu. destruct Hu as [Hn Hm].
  apply String.eqb_neq in Hn. apply String.eqb_neq in Hm.
  destruct (IH Hrest) as [H1 H2]. split; intros [E|E]; auto.
Qed.

Lemma NoDup_snoc {A} (l : list A) (x : A) :
  NoDup l -> ~ In x l -> NoDup (l ++ [x]).
Proof.
  intros Hl Hx. apply NoDup_app; [exact Hl|repeat constructor; intros []|].
  intros a Ha [<-|[]]. contradiction.
Qed.

Lemma signup_unique (X : externals) name mail password salt d :
  users_unique d -> users_unique (snd (signup X name mail password salt d)).
Proof.
  intros Hu. unfold signup.
  destruct (existsb _ (users d)) eqn:E; [exact Hu|].
  destruct Hu as (Hn & Hm & Hi & Hs & Hb).
  destruct (existsb_taken _ _ _ E) as [Hfn Hfm].
  unfold users_unique. simpl. rewrite !map_app. simpl.
  split; [now apply NoDup_snoc|]. split; [now apply NoDup_snoc|].
  split; [|split; [lia|]].
  - apply NoDup_snoc; [exact Hi|].
    intro Hin. apply in_map_iff in Hin. destruct Hin as [u [Eu Hu]].
    specialize (Hb u Hu). lia.
  - intros u H. apply in_app_or in H. destruct H as [H|[<-|[]]]; [|simpl; lia].
    specialize (Hb u H). lia.
Qed.

Lemma step_users (X : externals) (env : option string) (s : server)
  (now : Z) (e : event) :
  settings_singleton (db s) ->
  users_unique (db s) -> users_unique (db (fst (step X env s now e))).
Proof.
  intros Hset Hu.
  assert (Hsame : forall d', users d' = users (db s) ->
                             users_seq d' = users_seq (db s) ->
                             users_unique d').
  { intros d' E1 E2. unfold users_unique. now rewrite E1, E2. }
  destruct e; unfold step; try (destruct (alive s); simpl negb; cbv iota);
    try exact Hu.
  - now apply signup_unique.
  - destruct (login X env mail password now (db s)); exact Hu.
  - destruct (authenticated_cases X env now (summary_handler now) req (db s))
      as [[r ->]|[user ->]]; exact Hu.
  - destruct (authenticated_cases X env now (history_handler now) req (db s))
      as [[r ->]|[user ->]]; exact Hu.
  - destruct (authenticated_cases X env now get_settings_handler req (db s))
      as [[r ->]|[user ->]]; exact Hu.
  - destruct (authenticated_cases X env now (post_settings_handler X) req (db s))
      as [[r ->]|[user ->]]; [exact Hu|].
    unfold respond, post_settings_handler. simpl.
    destruct (bind_data_limit X _); exact Hu.
  - simpl. apply Hsame; unfold tick;
      destruct (g_domain (generate dr)); try reflexivity;
      destruct (g_protocol (generate dr)); try reflexivity;
      unfold insert_log; destruct (broadcast send clients); reflexivity.
  - simpl. now rewrite (initialize_singleton _ Hset).
  - simpl. now rewrite (initialize_singleton _ Hset).
Qed.

Lemma run_users (X : externals) (env : option string) evs :
  forall s, settings_singleton (db s) -> users_unique (db s) ->
            users_unique (db (run X env s evs)).
Proof.
  induction evs as [|[now e] evs IH]; intros s Hs Hu; [exact Hu|].
  simpl. apply IH; [now apply step_store|now apply step_users].
Qed.

(** X1.  In every state the server can reach no two users share a username, an
    email or an id, and every id lies between 1 and the AUTOINCREMENT
    counter. *)
Theorem users_stay_unique (X : externals) (env : option string) (s : server) :
  reachable X env s ->
  NoDup (map username (users (db s))) /\
  NoDup (map email (users (db s))) /\
  NoDup (map user_id (users (db s))) /\
  forall u, In u (users (db s)) -> 1 <= user_id u <= users_seq (db s).
Proof.
  intros [evs ->].
  destruct (run_users X env evs (boot empty_database) boot_empty_singleton)
    as (H1 & H2 & H3 & _ & H4).
  - unfold users_unique. simpl.
    split; [apply NoDup_nil|]. split; [apply NoDup_nil|].
    split; [apply NoDup_nil|]. split; [lia|intros u []].
  - repeat split; try assumption; now apply H4.
Qed.

Lemma users_stay_unique_witness :
  NoDup (map username (users (db (run sample_externals None
           (boot empty_database)
           [(10, EvSignup "bob" "bob@example.org" "pw" "salt");
            (11, EvSignup "bob" "other@example.org" "pw" "salt");
            (12, EvSignup "eve" "eve@example.org" "pw" "salt")])))) /\
  length (users (db (run sample_externals None (boot empty_database)
           [(10, EvSignup "bob" "bob@example.org" "pw" "salt");
            (11, EvSignup "bob" "other@example.org" "pw" "salt");
            (12, EvSignup "eve" "eve@example.org" "pw" "salt")]))) = 2%nat.
Proof.
  split; [|reflexivity].
  apply (users_stay_unique sample_externals None).
  eexists. reflexivity.
Defined.

Lemma not_taken name mail (us : list user) :
  ~ In name (map username us) -> ~ In mail (map email us) ->
  existsb (fun u => (username u =? name)%string || (email u =? mail)%string) us
    = false.
Proof.
  induction us as [|u us IH]; simpl; intros Hn Hm; [reflexivity|].
  rewrite IH by tauto.
  assert (E1 : (username u =? name)%string = false)
    by (apply String.eqb_neq; tauto).
  assert (E2 : (email u =? mail)%string = false)
    by (apply String.eqb_neq; tauto).
  now rewrite E1, E2.
Qed.

Lemma find_new_user mail (us : list user) (u : user) :
  ~ In mail (map email us) -> email u = mail ->
  find (fun v => (email v =? mail)%string) (us ++ [u]) = Some u.
Proof.
  intros Hm Eu. induction us as [|v us IH]; simpl.
  - rewrite Eu, String.eqb_refl. reflexivity.
  - simpl in Hm.
    assert (E : (email v =? mail)%string = false)
      by (apply String.eqb_neq; tauto).
    rewrite E. apply IH. tauto.
Qed.

Lemma signup_ok_parts (X : externals) (env : option string)
  (name mail password salt : string) (now : Z) (d : database) :
  ~ In name (map username (users d)) ->
  ~ In mail (map email (users d)) ->
  bcrypt_compare X password (bcrypt_hash X password salt) = true ->
  fst (signup X name mail password salt d) = Json 200 PSuccess /\
  login X env mail (JStr password) now
        (snd (signup X name mail password salt d))
    = Some (Json 200
              (PLogin (jwt_sign X (users_seq d + 1) name (JWT_SECRET env) now)
                      name mail)).
Proof.
  intros Hn Hm Hb. unfold signup.
  rewrite (not_taken name mail (users d) Hn Hm). cbn [fst snd].
  split; [reflexivity|].
  unfold login. cbn [users].
  rewrite find_new_user; [|exact Hm|reflexivity].
  cbn [password_hash user_id username email]. rewrite Hb. reflexivity.
Qed.

(** X2.  A signup with a username and an email nobody has answers success and
    adds one user, with the next id and the bcrypt hash of the password;
    a login with that email and password then succeeds and its token is
    signed for the new id and username; signing up again with the same
    username or the same email answers 400 and changes nothing. *)
Theorem signup_then_login (X : externals) (env : option string)
  (name mail password salt : string) (now : Z) (d : database) :
  ~ In name (map username (users d)) ->
  ~ In mail (map email (users d)) ->
  bcrypt_compare X password (bcrypt_hash X password salt) = true ->
  fst (signup X name mail password salt d) = Json 200 PSuccess /\
  users (snd (signup X name mail password salt d))
    = users d ++ [{| user_id := users_seq d + 1; username := name;
                     email := mail;
                     password_hash := bcrypt_hash X password salt |}] /\
  login X env mail (JStr password) now
        (snd (signup X name mail password salt d))
    = Some (Json 200
              (PLogin (jwt_sign X (users_seq d + 1) name (JWT_SECRET env) now)
                      name mail)) /\
  forall name' mail' password' salt',
    name' = name \/ mail' = mail ->
    signup X name' mail' password' salt'
           (snd (signup X name mail password salt d))
    = (Json 400 (PError (unique_message X name' mail'
                           (users (snd (signup X name mail password salt d))))),
       snd (signup X name mail password salt d)).
Proof.
  intros Hn Hm Hb. unfold signup at 1 2 3.
  rewrite (not_taken name mail (users d) Hn Hm). cbn [fst snd users].
  split; [reflexivity|]. split; [reflexivity|]. split.
  - unfold login. cbn [users].
    rewrite find_new_user; [|exact Hm|reflexivity].
    cbn [password_hash user_id username email]. rewrite Hb. reflexivity.
  - intros name' mail' password' salt' Hsame.
    unfold signup at 1. fold (signup X name mail password salt d).
    assert (E : existsb
                  (fun u => (username u =? name')%string
                            || (email u =? mail')%string)
                  (users (snd (signup X name mail password salt d))) = true).
    { unfold signup. rewrite (not_taken name mail (users d) Hn Hm).
      cbn [snd users]. rewrite existsb_app. simpl.
      destruct Hsame as [-> | ->]; rewrite String.eqb_refl;
        rewrite ?orb_true_r; reflexivity. }
    rewrite E. reflexivity.
Qed.

Lemma signup_then_login_witness :
  login sample_externals None "bob@example.org" (JStr "pw") 1700000010
        (snd (signup sample_externals "bob" "bob@example.org" "pw" "salt"
                     sample_database))
  = Some (Json 200 (PLogin (jwt_sign sample_externals 2 "bob"
                                     (JWT_SECRET None) 1700000010)
                           "bob" "bob@example.org")).
Proof.
  apply (signup_then_login sample_externals None "bob" "bob@example.org"
           "pw" "salt" 1700000010 sample_database).
  - simpl. intros [H|[]]. discriminate H.
  - simpl. intros [H|[]]. discriminate H.
  - reflexivity.
Defined.

(** X17.  The landing form against the server.  In signup mode, with a username
    and an email nobody has, the form switches to login mode; submitted
    again in login mode it calls login with the token, the username and the
    email.  In login mode with an email nobody has it alerts "Invalid
    credentials" and the database is as before. *)
Theorem landing_flow (X : externals) (env : option string) (f : form_data)
  (salt salt' : string) (now now' : Z) (d : database) :
  ~ In (form_username f) (map username (users d)) ->
  ~ In (form_email f) (map email (users d)) ->
  bcrypt_compare X (form_password f) (bcrypt_hash X (form_password f) salt)
    = true ->
  jwt_sign X (users_seq d + 1) (form_username f) (JWT_SECRET env) now'
    <> EmptyString ->
  handleSubmit X env true f salt' now d
    = (Alert (Some "Invalid credentials"), d) /\
  fst (handleSubmit X env false f salt now d) = SwitchToLogin /\
  handleSubmit X env true f salt' now'
               (snd (handleSubmit X env false f salt now d))
    = (CallLogin (jwt_sign X (users_seq d + 1) (form_username f)
                           (JWT_SECRET env) now')
                 (form_username f) (form_email f),
       snd (handleSubmit X env false f salt now d)).
Proof.
  intros Hn Hm Hb Htok.
  destruct (signup_ok_parts X env (form_username f) (form_email f)
              (form_password f) salt now' d Hn Hm Hb) as (H1 & H2).
  split; [|split].
  - unfold handleSubmit, login.
    assert (E : find (fun u => (email u =? form_email f)%string) (users d)
                = None).
    { destruct (find _ (users d)) as [u|] eqn:Ef; [|reflexivity].
      apply find_some in Ef. destruct Ef as [Hu Eu].
      apply String.eqb_eq in Eu. exfalso. apply Hm.
      apply in_map_iff. now exists u. }
    now rewrite E.
  - unfold handleSubmit.
    destruct (signup X (form_username f) (form_email f) (form_password f)
                     salt d) as [r d'] eqn:Es.
    simpl in H1. cbn [fst]. now rewrite H1.
  - unfold handleSubmit at 1.
    assert (Ed : snd (handleSubmit X env false f salt now d)
                 = snd (signup X (form_username f) (form_email f)
                               (form_password f) salt d)).
    { unfold handleSubmit.
      now destruct (signup X (form_username f) (form_email f)
                           (form_password f) salt d). }
    rewrite Ed, H2. unfold handle_answer.
    apply String.eqb_neq in Htok. now rewrite Htok.
Qed.

Lemma landing_flow_witness :
  handleSubmit sample_externals None true
    {| form_username := "bob"; form_email := "bob@example.org";
       form_password := "pw" |} "salt" 1700000000 sample_database
    = (Alert (Some "Invalid credentials"), sample_database) /\
  fst (handleSubmit sample_externals None false
         {| form_username := "bob"; form_email := "bob@example.org";
            form_password := "pw" |} "salt" 1700000000 sample_database)
    = SwitchToLogin.
Proof.
  destruct (landing_flow sample_externals None
              {| form_username := "bob"; form_email := "bob@example.org";
                 form_password := "pw" |} "salt" "salt"
              1700000000 1700000020 sample_database) as (H1 & H2 & _).
  - simpl. intros [H|[]]. discriminate H.
  - simpl. intros [H|[]]. discriminate H.
  - reflexivity.
  - discriminate.
  - split; [exact H1|exact H2].
Defined.

(* ================================================================== *)
(** * Aggregator: groups partition the table *)

Section GroupSums.
Context {R K : Type}.
Variable key : R -> K.
Variable keqb : K -> K -> bool.
Hypothesis keqb_spec : forall a b, reflect (a = b) (keqb a b).
Variable val : R -> Z.

Lemma sum_list_app (l1 l2 : list Z) :
  sum_list (l1 ++ l2) = sum_list l1 + sum_list l2.
Proof.
  unfold sum_list. induction l1 as [|x l1 IH]; simpl; [reflexivity|].
  rewrite IH. lia.
Qed.

Lemma sum_indicator (x : K) (v : Z) (keys : list K) :
  NoDup keys ->
  sum_list (map (fun k => if keqb x k then v else 0) keys)
  = if existsb (keqb x) keys then v else 0.
Proof.
  induction 1 as [|k keys Hk Hnd IH]; simpl; [reflexivity|].
  rewrite IH. destruct (keqb_spec x k) as [->|Hne]; simpl; [|reflexivity].
  destruct (existsb (keqb k) keys) eqn:E; [|lia].
  apply existsb_exists in E. destruct E as [k' [Hin Ek]].
  destruct (keqb_spec k k'); [subst; contradiction|discriminate].
Qed.

Lemma sum_list_cons (x : Z) (l : list Z) : sum_list (x :: l) = x + sum_list l.
Proof. reflexivity. Qed.

Lemma group_head (k : K) (r : R) (t : list R) :
  sum_list (map val (filter (fun r => keqb (key r) k) (r :: t)))
  = (if keqb (key r) k then val r else 0)
    + sum_list (map val (filter (fun r => keqb (key r) k) t)).
Proof. simpl. destruct (keqb (key r) k); simpl; lia. Qed.

Lemma groups_head (keys : list K) (r : R) (t : list R) :
  sum_list (map (fun k => sum_list (map val (filter (fun r => keqb (key r) k)
                                                    (r :: t)))) keys)
  = sum_list (map (fun k => if keqb (key r) k then val r else 0) keys)
    + sum_list (map (fun k => sum_list (map val (filter (fun r => keqb (key r) k)
                                                        t))) keys).
Proof.
  induction keys as [|k keys IHk]; [reflexivity|].
  rewrite !map_cons, !sum_list_cons, IHk, group_head. lia.
Qed.

Lemma sum_groups (keys : list K) (t : list R) :
  NoDup keys ->
  (forall r, In r t -> In (key r) keys) ->
  sum_list (map (fun k => sum_list (map val (filter (fun r => keqb (key r) k) t)))
                keys)
  = sum_list (map val t).
Proof.
  intros Hnd. induction t as [|r t IH]; intro Hin.
  - simpl. clear. induction keys as [|k keys IHk]; simpl; [reflexivity|].
    now rewrite IHk.
  - assert (Hk : existsb (keqb (key r)) keys = true).
    { apply existsb_exists. exists (key r). split; [apply Hin; now left|].
      destruct (keqb_spec (key r) (key r)); [reflexivity|congruence]. }
    pose proof (sum_indicator (key r) (val r) keys Hnd) as Hi.
    rewrite Hk in Hi.
    specialize (IH (fun x Hx => Hin x (or_intror Hx))).
    change (sum_list (map val (r :: t))) with (val r + sum_list (map val t)).
    rewrite groups_head, IH, Hi. reflexivity.
Qed.
End GroupSums.

Lemma sum_list_perm (l1 l2 : list Z) :
  Permutation l1 l2 -> sum_list l1 = sum_list l2.
Proof. unfold sum_list. induction 1; simpl; lia. Qed.

Lemma sum_ones {A} (l : list A) :
  sum_list (map (fun _ => 1) l) = Z.of_nat (length l).
Proof.
  induction l as [|x l IH]; [reflexivity|].
  rewrite map_cons, sum_list_cons, IH. simpl length. lia.
Qed.

Lemma sum_list_nonneg (l : list Z) :
  (forall x, In x l -> 0 <= x) -> 0 <= sum_list l.
Proof.
  induction l as [|x l IH]; intro H; [simpl; lia|].
  rewrite sum_list_cons.
  specialize (IH (fun y Hy => H y (or_intror Hy))).
  specialize (H x (or_introl eq_refl)). lia.
Qed.

Lemma sum_firstn_le (n : nat) (l : list Z) :
  (forall x, In x l -> 0 <= x) -> sum_list (firstn n l) <= sum_list l.
Proof.
  intro H. rewrite <- (firstn_skipn n l) at 2. rewrite sum_list_app.
  assert (0 <= sum_list (skipn n l)); [|lia].
  apply sum_list_nonneg. intros x Hx. apply H.
  rewrite <- (firstn_skipn n l). apply in_or_app. now right.
Qed.

Lemma SUM_value (l : list Z) :
  match SUM l with Some x => x | None => 0 end = sum_list l.
Proof. now destruct l. Qed.

Lemma protocol_groups_In p t :
  In p (sort String.leb (distinct String.eqb (map protocol t))) <->
  exists r, In r t /\ protocol r = p.
Proof.
  rewrite sort_In, (distinct_In _ String.eqb_spec), in_map_iff.
  split; intros [r [H1 H2]]; exists r; tauto.
Qed.

(** X3.  protocolStats lists every protocol that occurs in the table exactly
    once, each with the number of its rows, which is at least 1; the
    counts add up to the number of rows of the table; an empty table gives
    an empty list. *)
Theorem protocolStats_spec (t : list traffic_log) :
  NoDup (map pr_protocol (protocolStats t)) /\
  (forall p, In p (map pr_protocol (protocolStats t)) <->
             exists r, In r t /\ protocol r = p) /\
  (forall e, In e (protocolStats t) ->
     count e = Z.of_nat (length (filter (fun r => (protocol r =? pr_protocol e)%string) t))
     /\ 1 <= count e) /\
  sum_list (map count (protocolStats t)) = Z.of_nat (length t) /\
  (t = [] -> protocolStats t = []).
Proof.
  assert (Hmap : map pr_protocol (protocolStats t)
                 = sort String.leb (distinct String.eqb (map protocol t))).
  { unfold protocolStats. rewrite map_map. simpl. apply map_id. }
  assert (Hnd : NoDup (sort String.leb (distinct String.eqb (map protocol t)))).
  { apply sort_NoDup, (distinct_NoDup _ String.eqb_spec). }
  split; [now rewrite Hmap|]. split; [|split; [|split]].
  - intro p. rewrite Hmap. apply protocol_groups_In.
  - intros e He. unfold protocolStats in He. apply in_map_iff in He.
    destruct He as [p [<- Hp]]. simpl. split; [reflexivity|].
    apply protocol_groups_In in Hp. destruct Hp as [r [Hr Ep]].
    assert (Hin : In r (filter (fun r0 => (protocol r0 =? p)%string) t)).
    { apply filter_In. split; [exact Hr|]. now apply String.eqb_eq. }
    unfold COUNT. destruct (filter _ t); [contradiction|]. simpl length. lia.
  - unfold protocolStats. rewrite map_map. simpl. unfold COUNT.
    rewrite <- sum_ones.
    rewrite <- (sum_groups protocol String.eqb String.eqb_spec (fun _ => 1)
                  (sort String.leb (distinct String.eqb (map protocol t))) t Hnd).
    + f_equal. apply map_ext. intro p. now rewrite sum_ones.
    + intros r Hr. apply protocol_groups_In. now exists r.
  - intros ->. reflexivity.
Qed.

(** X4.  The totals of the domain groups add up to the combined bytes of the
    whole table.  With at most 5 domains topDomains accounts for all of
    them; with non-negative byte counts it never accounts for more. *)
Theorem topDomains_accounts (t : list traffic_log) :
  sum_nullable (map total_bytes (by_domain t))
    = sum_list (map combined_bytes t) /\
  ((length (distinct String.eqb (map domain t)) <= 5)%nat ->
   sum_nullable (map total_bytes (topDomains t))
     = sum_list (map combined_bytes t)) /\
  (bytes_nonneg t ->
   sum_nullable (map total_bytes (topDomains t))
     <= sum_list (map combined_bytes t)).
Proof.
  assert (Hall : sum_nullable (map total_bytes (by_domain t))
                 = sum_list (map combined_bytes t)).
  { unfold sum_nullable, by_domain. rewrite !map_map. simpl.
    rewrite <- (sum_groups domain String.eqb String.eqb_spec combined_bytes
                  (domain_groups t) t (domain_groups_NoDup t)).
    - f_equal. apply map_ext. intro d. apply SUM_value.
    - intros r Hr. apply domain_groups_In. now exists r. }
  assert (Hperm : sum_nullable (map total_bytes (sort total_desc (by_domain t)))
                  = sum_nullable (map total_bytes (by_domain t))).
  { unfold sum_nullable. apply sum_list_perm.
    do 2 apply Permutation_map. apply sort_perm. }
  split; [exact Hall|]. split.
  - intro Hlen. unfold topDomains. rewrite firstn_all2; [now rewrite Hperm|].
    rewrite sort_length. unfold by_domain. rewrite length_map.
    unfold domain_groups. now rewrite sort_length.
  - intro Hnn. rewrite <- Hall, <- Hperm. unfold topDomains, sum_nullable.
    rewrite <- !firstn_map. apply sum_firstn_le.
    intros x Hx. rewrite in_map_iff in Hx. destruct Hx as [v [<- Hv]].
    rewrite in_map_iff in Hv. destruct Hv as [e [<- He]].
    apply sort_In in He. destruct (by_domain_In _ _ He) as [_ ->].
    unfold domain_total. apply sum_list_nonneg.
    intros y Hy. rewrite in_map_iff in Hy. destruct Hy as [r [<- Hr]].
    apply filter_In in Hr. destruct (Hnn r (proj1 Hr)). unfold combined_bytes. lia.
Qed.

Lemma history_rows_perm now t :
  Permutation (history now t)
    (map (fun h =>
            {| hour := h;
               upload := SUM (map upload_bytes
                                  (filter (in_hour h) (recent24 now t)));
               download := SUM (map download_bytes
                                    (filter (in_hour h) (recent24 now t))) |})
         (sort Z.leb (distinct Z.eqb (map hour_of (recent24 now t))))).
Proof. unfold history. apply sort_perm. Qed.

Lemma hour_groups_cover now t (val : traffic_log -> Z) :
  sum_list (map (fun h => sum_list (map val (filter (in_hour h)
                                                    (recent24 now t))))
                (sort Z.leb (distinct Z.eqb (map hour_of (recent24 now t)))))
  = sum_list (map val (recent24 now t)).
Proof.
  apply (sum_groups hour_of Z.eqb Z.eqb_spec val).
  - apply sort_NoDup, (distinct_NoDup _ Z.eqb_spec).
  - intros r Hr. rewrite sort_In, (distinct_In _ Z.eqb_spec).
    now apply in_map.
Qed.

Lemma sum_filter_le {A} (p q : A -> bool) (val : A -> Z) (l : list A) :
  (forall x, In x l -> 0 <= val x) ->
  (forall x, p x = true -> q x = true) ->
  sum_list (map val (filter p l)) <= sum_list (map val (filter q l)).
Proof.
  intros Hv Hpq. induction l as [|x l IH]; [simpl; lia|].
  specialize (IH (fun y Hy => Hv y (or_intror Hy))).
  specialize (Hv x (or_introl eq_refl)). simpl.
  destruct (p x) eqn:Ep.
  - rewrite (Hpq x Ep). rewrite !map_cons, !sum_list_cons. lia.
  - destruct (q x); [rewrite map_cons, sum_list_cons|]; lia.
Qed.

(** X5.  The hourly buckets of history add up to the upload and to the download
    of the records newer than now - 24 h: no record of the window is lost
    or counted twice.  With non-negative byte counts these sums do not
    exceed the 30-day totals the summary reports at the same time. *)
Theorem history_accounts (now : Z) (t : list traffic_log) :
  sum_nullable (map upload (history now t))
    = sum_list (map upload_bytes (recent24 now t)) /\
  sum_nullable (map download (history now t))
    = sum_list (map download_bytes (recent24 now t)) /\
  (bytes_nonneg t ->
   sum_nullable (map upload (history now t))
     <= sum_nullable [total_upload (stats_query now t)] /\
   sum_nullable (map download (history now t))
     <= sum_nullable [total_download (stats_query now t)]).
Proof.
  assert (Hu : sum_nullable (map upload (history now t))
               = sum_list (map upload_bytes (recent24 now t))).
  { unfold sum_nullable.
    rewrite (sum_list_perm _ _
               (Permutation_map _ (Permutation_map upload
                                     (history_rows_perm now t)))).
    rewrite !map_map. simpl. rewrite <- hour_groups_cover.
    f_equal. apply map_ext. intro h. apply SUM_value. }
  assert (Hd : sum_nullable (map download (history now t))
               = sum_list (map download_bytes (recent24 now t))).
  { unfold sum_nullable.
    rewrite (sum_list_perm _ _
               (Permutation_map _ (Permutation_map download
                                     (history_rows_perm now t)))).
    rewrite !map_map. simpl. rewrite <- hour_groups_cover.
    f_equal. apply map_ext. intro h. apply SUM_value. }
  split; [exact Hu|]. split; [exact Hd|].
  intro Hnn. rewrite Hu, Hd. unfold sum_nullable, stats_query. simpl.
  rewrite !SUM_value, !Z.add_0_r. unfold recent24.
  assert (Hwin : forall r, newer_than now hours24 r = true ->
                           newer_than now days30 r = true).
  { intro r. unfold newer_than, hours24, days30, seconds_per_hour.
    rewrite !Z.ltb_lt. lia. }
  split; apply sum_filter_le; try exact Hwin; intros r Hr;
    destruct (Hnn r Hr); assumption.
Qed.

(** X6.  The stats of the summary over a window that holds records: both
    totals are the sums over the records newer than now - 30 days, the
    packet count is their number, and it is at least 1.  A total is NULL
    exactly when the packet count is 0. *)
Theorem stats_window (now : Z) (t : list traffic_log) :
  total_packets (stats_query now t)
    = Z.of_nat (length (filter (newer_than now days30) t)) /\
  (total_upload (stats_query now t) = None <->
   total_packets (stats_query now t) = 0) /\
  (total_download (stats_query now t) = None <->
   total_packets (stats_query now t) = 0) /\
  ((exists r, In r t /\ now - 30 * 24 * 3600 < timestamp r) ->
   1 <= total_packets (stats_query now t) /\
   total_upload (stats_query now t)
     = Some (sum_list (map upload_bytes (filter (newer_than now days30) t))) /\
   total_download (stats_query now t)
     = Some (sum_list (map download_bytes (filter (newer_than now days30) t)))).
Proof.
  unfold stats_query. simpl. unfold COUNT.
  split; [reflexivity|].
  split; [|split].
  - destruct (filter (newer_than now days30) t); simpl length;
      split; intro H; try reflexivity; try discriminate; lia.
  - destruct (filter (newer_than now days30) t); simpl length;
      split; intro H; try reflexivity; try discriminate; lia.
  - intros [r [Hr Ht]].
    assert (Hin : In r (filter (newer_than now days30) t)).
    { apply filter_In. split; [exact Hr|].
      unfold newer_than, days30, seconds_per_hour. apply Z.ltb_lt. lia. }
    destruct (filter (newer_than now days30) t) as [|r0 rs];
      [contradiction|].
    split; [simpl length; lia|]. split; reflexivity.
Qed.

(* ================================================================== *)
(** * More on the store *)

Lemma initialize_traffic_seq d : traffic_seq (initialize d) = traffic_seq d.
Proof. unfold initialize. now destruct (existsb _ _). Qed.

(** What one event does to traffic_logs and its counter: nothing, or one
    row appended with the next id and the time of the event. *)
Lemma step_traffic (X : externals) (env : option string) (s : server)
  (now : Z) (e : event) :
  (traffic_logs (db (fst (step X env s now e))) = traffic_logs (db s) /\
   traffic_seq (db (fst (step X env s now e))) = traffic_seq (db s)) \/
  (exists r,
     traffic_logs (db (fst (step X env s now e))) = traffic_logs (db s) ++ [r] /\
     log_id r = traffic_seq (db s) + 1 /\
     timestamp r = now /\
     traffic_seq (db (fst (step X env s now e))) = traffic_seq (db s) + 1).
Proof.
  destruct e; unfold step; try (destruct (alive s); simpl negb; cbv iota);
    try (left; split; reflexivity).
  - left. unfold respond, signup. simpl.
    destruct (existsb _ (users (db s))); split; reflexivity.
  - destruct (login X env mail password now (db s));
      left; split; reflexivity.
  - destruct (authenticated_cases X env now (summary_handler now) req (db s))
      as [[r ->]|[user ->]]; left; split; reflexivity.
  - destruct (authenticated_cases X env now (history_handler now) req (db s))
      as [[r ->]|[user ->]]; left; split; reflexivity.
  - destruct (authenticated_cases X env now get_settings_handler req (db s))
      as [[r ->]|[user ->]]; left; split; reflexivity.
  - destruct (authenticated_cases X env now (post_settings_handler X) req (db s))
      as [[r ->]|[user ->]]; [left; split; reflexivity|].
    left. unfold respond, post_settings_handler. simpl.
    destruct (bind_data_limit X _); split; reflexivity.
  - simpl. unfold tick.
    destruct (g_domain (generate dr)) as [dom|];
      [destruct (g_protocol (generate dr)) as [proto|]|];
      try (left; split; reflexivity).
    unfold insert_log. destruct (broadcast send clients) as [calls k].
    right. eexists. simpl. repeat split.
  - left. simpl. now rewrite initialize_traffic, initialize_traffic_seq.
  - left. simpl. now rewrite initialize_traffic, initialize_traffic_seq.
Qed.

Lemma seq_snoc (n : nat) : seq 1 (S n) = seq 1 n ++ [S n].
Proof. rewrite seq_S. reflexivity. Qed.

Lemma run_ids (X : externals) (env : option string) evs :
  forall s, ids_sequential (db s) -> ids_sequential (db (run X env s evs)).
Proof.
  induction evs as [|[now e] evs IH]; intros s Hs; [exact Hs|].
  simpl. apply IH. destruct Hs as [Hseq Hids].
  destruct (step_traffic X env s now e) as [[El Es]|[r (El & Eid & _ & Es)]];
    unfold ids_sequential; rewrite El, Es.
  - now split.
  - rewrite length_app, Nat.add_1_r, seq_snoc, !map_app, <- Hids. simpl.
    split; [lia|]. f_equal. f_equal. lia.
Qed.

Lemma NoDup_map_of_nat (l : list nat) : NoDup l -> NoDup (map Z.of_nat l).
Proof.
  induction 1 as [|x l Hx Hl IH]; simpl; constructor; [|exact IH].
  intro H. apply in_map_iff in H. destruct H as [y [E Hy]].
  apply Nat2Z.inj in E. now subst.
Qed.

(** X8.  In every state the server can reach the ids of traffic_logs are
    1, 2, ..., n in insertion order, so no id repeats and a later row has a
    larger id, and the counter equals the number of rows. *)
Theorem traffic_ids_sequential (X : externals) (env : option string)
  (s : server) :
  reachable X env s ->
  map log_id (traffic_logs (db s))
    = map Z.of_nat (seq 1 (length (traffic_logs (db s)))) /\
  traffic_seq (db s) = Z.of_nat (length (traffic_logs (db s))) /\
  NoDup (map log_id (traffic_logs (db s))).
Proof.
  intros [evs ->].
  destruct (run_ids X env evs (boot empty_database)) as [H1 H2].
  { split; reflexivity. }
  split; [exact H2|]. split; [exact H1|].
  rewrite H2. apply NoDup_map_of_nat, seq_NoDup.
Qed.

Lemma traffic_ids_sequential_witness :
  map log_id
      (traffic_logs
         (db (run sample_externals None (boot empty_database)
                  [(10, EvTick sample_draws [] (fun _ => Sent));
                   (12, EvTick sample_draws [] (fun _ => Sent));
                   (13, EvRestart);
                   (14, EvTick sample_draws [] (fun _ => Sent))])))
  = [1; 2; 3].
Proof.
  apply (traffic_ids_sequential sample_externals None).
  eexists. reflexivity.
Defined.

Lemma run_chronological (X : externals) (env : option string) evs :
  forall s now,
    chronological (traffic_logs (db s)) ->
    stamped_by now (traffic_logs (db s)) ->
    times_ascend now evs ->
    chronological (traffic_logs (db (run X env s evs))).
Proof.
  induction evs as [|[n e] evs IH]; intros s now Hc Hs Hasc; [exact Hc|].
  destruct Hasc as [Hle Hasc]. simpl.
  destruct (step_traffic X env s n e) as [[El _]|[r (El & _ & Et & _)]].
  - apply (IH _ n); [now rewrite El| |exact Hasc].
    rewrite El. now apply stamped_by_mono with now.
  - apply (IH _ n); [| |exact Hasc]; rewrite El.
    + unfold chronological in *.
      clear IH El. induction Hc as [|a l Hl IHl Ha]; simpl.
      * repeat constructor.
      * constructor.
        -- apply IHl. intros x Hx. apply Hs. now right.
        -- apply Forall_app. split; [exact Ha|].
           constructor; [|constructor].
           specialize (Hs a (or_introl eq_refl)). lia.
    + intros x Hx. apply in_app_or in Hx. destruct Hx as [Hx|[<-|[]]].
      * specialize (Hs x Hx). lia.
      * lia.
Qed.

(** X9.  In a run whose events come at non-decreasing times the rows of
    traffic_logs are in the order of their timestamps, and none is stamped
    after the last event. *)
Theorem traffic_logs_chronological (X : externals) (env : option string)
  (start : Z) (evs : list (Z * event)) :
  times_ascend start evs ->
  chronological (traffic_logs (db (run X env (boot empty_database) evs))) /\
  stamped_by (last_time start evs)
             (traffic_logs (db (run X env (boot empty_database) evs))).
Proof.
  intro Hasc. split.
  - apply (run_chronological X env evs _ start); [constructor| |exact Hasc].
    intros r [].
  - apply run_stamped; [apply boot_empty_singleton| |exact Hasc].
    intros r [].
Qed.

Lemma traffic_logs_chronological_witness :
  chronological
    (traffic_logs
       (db (run sample_externals None (boot empty_database)
                [(10, EvTick sample_draws [] (fun _ => Sent));
                 (12, EvTick sample_draws [client1] first_throws);
                 (13, EvRestart);
                 (14, EvTick sample_draws [] (fun _ => Sent))]))).
Proof.
  apply (traffic_logs_chronological sample_externals None 0).
  simpl. lia.
Defined.

(* ================================================================== *)
(** * More on settings *)

Lemma step_settings_frame (X : externals) (env : option string) (s : server)
  (now : Z) (e : event) :
  settings_singleton (db s) ->
  is_settings_post e = false ->
  settings (db (fst (step X env s now e))) = settings (db s).
Proof.
  intros Hset He.
  destruct e; try discriminate He; unfold step;
    try (destruct (alive s); simpl negb; cbv iota); try reflexivity.
  - unfold respond, signup. simpl.
    now destruct (existsb _ (users (db s))).
  - now destruct (login X env mail password now (db s)).
  - now destruct (authenticated_cases X env now (summary_handler now) req (db s))
      as [[r ->]|[user ->]].
  - now destruct (authenticated_cases X env now (history_handler now) req (db s))
      as [[r ->]|[user ->]].
  - now destruct (authenticated_cases X env now get_settings_handler req (db s))
      as [[r ->]|[user ->]].
  - simpl. now destruct (tick_traffic now dr clients send (db s)) as [? [_ ->]].
  - simpl. now rewrite (initialize_singleton _ Hset).
  - simpl. now rewrite (initialize_singleton _ Hset).
Qed.

(** X7.  Only POST /api/settings changes the settings row: through any events
    without one (signups, logins, reads, ticks, a crash of the process and
    restarts, in which db.exec runs INSERT OR IGNORE again) the row stays
    as it is. *)
Theorem settings_survive (X : externals) (env : option string)
  (evs : list (Z * event)) (s : server) :
  settings_singleton (db s) ->
  forallb (fun ne => negb (is_settings_post (snd ne))) evs = true ->
  settings (db (run X env s evs)) = settings (db s).
Proof.
  revert s. induction evs as [|[now e] evs IH]; intros s Hset Hev;
    [reflexivity|].
  simpl in Hev. apply andb_true_iff in Hev. destruct Hev as [He Hev].
  apply negb_true_iff in He. simpl.
  rewrite IH; [now apply step_settings_frame|now apply step_store|exact Hev].
Qed.

Lemma settings_survive_witness :
  settings
    (db (run sample_externals None
             {| db := snd (post_settings_handler sample_externals sample_claims
                             {| authorization := alice_header;
                                body := {| body_data_limit_gb := JNum 50%float;
                                           body_alerts_enabled := JBool false |} |}
                             sample_database);
                alive := true |}
             [(10, EvTick sample_draws [client1] first_throws);
              (11, EvLogin "alice@example.org" (JStr "secret"));
              (12, EvRestart);
              (13, EvTick sample_draws [] (fun _ => Sent))]))
  = [{| settings_id := 1; data_limit_gb := SqlReal 50%float;
        alerts_enabled := 0 |}].
Proof.
  rewrite (settings_survive sample_externals None).
  - reflexivity.
  - eexists. split; reflexivity.
  - reflexivity.
Defined.



(** X13.  A settings update whose data_limit_gb is a boolean is answered
    with a server error, and nothing is written, not even the
    alerts_enabled it carries.  One whose data_limit_gb is missing is
    accepted: the row gets data_limit_gb NULL and alerts_enabled 1 or 0 by
    the truthiness of the posted value.  Of two accepted updates in a row
    the second one decides both fields. *)
Theorem settings_post_error_and_overwrite (X : externals)
  (user user' : jwt_payload) (req req' : request settings_body)
  (d : database) :
  settings_singleton d ->
  ((exists b, body_data_limit_gb (body req) = JBool b) ->
   post_settings_handler X user req d = (ServerError, d)) /\
  (body_data_limit_gb (body req) = JUndefined ->
   fst (post_settings_handler X user req d) = Json 200 PSuccess /\
   settings (snd (post_settings_handler X user req d))
   = [{| settings_id := 1; data_limit_gb := SqlNull;
         alerts_enabled :=
           if truthy (body_alerts_enabled (body req)) then 1 else 0 |}]) /\
  (forall limit limit',
     bind_data_limit X (body_data_limit_gb (body req)) = Some limit ->
     bind_data_limit X (body_data_limit_gb (body req')) = Some limit' ->
     post_settings_handler X user' req'
       (snd (post_settings_handler X user req d))
     = (Json 200 PSuccess, snd (post_settings_handler X user' req' d)) /\
     settings (snd (post_settings_handler X user' req' d))
     = [{| settings_id := 1; data_limit_gb := limit';
           alerts_enabled :=
             if truthy (body_alerts_enabled (body req')) then 1 else 0 |}]).
Proof.
  intros [r [Eset Hid]]. split; [|split].
  - intros [b E]; unfold post_settings_handler; rewrite E; reflexivity.
  - intro E. unfold post_settings_handler. rewrite E.
    cbn [bind_data_limit fst snd settings]. rewrite Eset.
    unfold update_settings. cbn [map settings_id].
    rewrite Hid. cbn [Z.eqb Pos.eqb settings_id]. split; reflexivity.
  - intros limit limit' Hb Hb'. unfold post_settings_handler.
    rewrite Hb, Hb'. cbn [snd settings users traffic_logs users_seq traffic_seq].
    rewrite Eset. unfold update_settings. cbn [map settings_id].
    rewrite Hid. cbn [Z.eqb Pos.eqb settings_id]. split; reflexivity.
Qed.

Lemma settings_post_error_and_overwrite_witness :
  post_settings_handler sample_externals sample_claims
    {| authorization := alice_header;
       body := {| body_data_limit_gb := JBool true;
                  body_alerts_enabled := JBool false |} |}
    sample_database
  = (ServerError, sample_database) /\
  settings
    (snd (post_settings_handler sample_externals sample_claims
            {| authorization := alice_header;
               body := {| body_data_limit_gb := JUndefined;
                          body_alerts_enabled := JBool false |} |}
            sample_database))
  = [{| settings_id := 1; data_limit_gb := SqlNull; alerts_enabled := 0 |}].
Proof.
  split.
  - apply (settings_post_error_and_overwrite sample_externals sample_claims
             sample_claims _
             {| authorization := alice_header;
                body := {| body_data_limit_gb := JNull;
                           body_alerts_enabled := JNull |} |}
             sample_database).
    + eexists. split; reflexivity.
    + now exists true.
  - apply (settings_post_error_and_overwrite sample_externals sample_claims
             sample_claims
             {| authorization := alice_header;
                body := {| body_data_limit_gb := JUndefined;
                           body_alerts_enabled := JBool false |} |}
             {| authorization := alice_header;
                body := {| body_data_limit_gb := JNull;
                           body_alerts_enabled := JNull |} |}
             sample_database).
    + eexists. split; reflexivity.
    + reflexivity.
Defined.

(* ================================================================== *)
(** * The dashboard against the server *)

Lemma step_alerts_flag (X : externals) (env : option string) (s : server)
  (now : Z) (e : event) :
  (exists r, settings (db s) = [r] /\ settings_id r = 1 /\
             (alerts_enabled r = 0 \/ alerts_enabled r = 1)) ->
  exists r, settings (db (fst (step X env s now e))) = [r] /\
            settings_id r = 1 /\
            (alerts_enabled r = 0 \/ alerts_enabled r = 1).
Proof.
  intros [r (Eset & Hid & Hflag)].
  assert (Hset : settings_singleton (db s)) by (exists r; now split).
  destruct (is_settings_post e) eqn:Ep.
  - destruct e; try discriminate Ep. unfold step.
    destruct (alive s); simpl negb; cbv iota; [|now exists r].
    destruct (authenticated_cases X env now (post_settings_handler X) req (db s))
      as [[rej ->]|[user ->]]; [now exists r|].
    unfold respond, post_settings_handler. simpl.
    destruct (bind_data_limit X _) as [limit|]; simpl; [|now exists r].
    destruct (update_settings_singleton limit
                (if truthy (body_alerts_enabled (body req)) then 1 else 0)
                (settings (db s)) Hset) as [r' (E & Hid' & _ & Ha)].
    exists r'. split; [exact E|]. split; [exact Hid'|].
    rewrite Ha. destruct (truthy _); [now right|now left].
  - rewrite (step_settings_frame X env s now e Hset Ep). now exists r.
Qed.

(** X14.  In every state the server can reach the alerts_enabled column of the
    settings row is 0 or 1. *)
Theorem alerts_flag_is_bit (X : externals) (env : option string)
  (s : server) :
  reachable X env s ->
  exists r, settings (db s) = [r] /\ settings_id r = 1 /\
            (alerts_enabled r = 0 \/ alerts_enabled r = 1).
Proof.
  intros [evs ->].
  assert (H0 : exists r, settings (db (boot empty_database)) = [r] /\
                         settings_id r = 1 /\
                         (alerts_enabled r = 0 \/ alerts_enabled r = 1)).
  { exists default_settings. repeat split. now right. }
  revert H0. generalize (boot empty_database).
  induction evs as [|[now e] evs IH]; intros s Hs; [exact Hs|].
  simpl. apply IH. now apply step_alerts_flag.
Qed.

Lemma alerts_flag_is_bit_witness :
  exists r,
    settings
      (db (run sample_externals None (boot empty_database)
               [(10, EvPostSettings
                       {| authorization := alice_header;
                          body := {| body_data_limit_gb := JNum 7%float;
                                     body_alerts_enabled := JStr "on" |} |})]))
    = [r] /\ settings_id r = 1 /\
    (alerts_enabled r = 0 \/ alerts_enabled r = 1).
Proof.
  apply (alerts_flag_is_bit sample_externals None).
  eexists. reflexivity.
Defined.

Lemma authenticate_header (X : externals) (env : option string) {B C}
  (now : Z) (h : option string) (b : B) (c : C) :
  authenticate X env now {| authorization := h; body := b |}
  = authenticate X env now {| authorization := h; body := c |}.
Proof. reflexivity. Qed.

Lemma save_back_field (limit : sqlval) :
  limit = SqlNull \/
  (exists v, limit = SqlReal v /\ PrimFloat.is_nan v = false /\
             PrimFloat.is_infinity v = false) ->
  stringify_field (stringify_field (js_of_sql limit))
  = stringify_field (js_of_sql limit) /\
  forall X, bind_data_limit X (stringify_field (js_of_sql limit)) = Some limit.
Proof.
  intros [->|[v (-> & Hn & Hi)]].
  - split; reflexivity.
  - cbn [js_of_sql stringify_field]. rewrite Hn, Hi. cbn [orb stringify_field].
    rewrite Hn, Hi. cbn [orb]. split; [reflexivity|].
    intro X. cbn [bind_data_limit]. now rewrite Hn.
Qed.

(** X15.  The settings form of the dashboard against the server, for a row whose
    alerts_enabled is 0 or 1 and whose data_limit_gb is NULL or a finite
    number, with a token the gate accepts.  Saving the settings as they
    were fetched leaves the row as it is; saving after one click on the
    alerts switch changes alerts_enabled from 0 to 1 or from 1 to 0 and
    nothing else. *)
Theorem dashboard_save (X : externals) (env : option string) (now : Z)
  (token : string) (user : jwt_payload) (d : database) (r : settings_row) :
  settings d = [r] ->
  settings_id r = 1 ->
  alerts_enabled r = 0 \/ alerts_enabled r = 1 ->
  data_limit_gb r = SqlNull \/
  (exists v, data_limit_gb r = SqlReal v /\ PrimFloat.is_nan v = false /\
             PrimFloat.is_infinity v = false) ->
  authenticate X env now (save_request token (settings_state r)) = inr user ->
  authenticated X env now (post_settings_handler X)
                (save_request token (settings_state r)) d
    = (Json 200 PSuccess, d) /\
  fst (authenticated X env now (post_settings_handler X)
                     (save_request token (toggle_alerts (settings_state r))) d)
    = Json 200 PSuccess /\
  settings (snd (authenticated X env now (post_settings_handler X)
                   (save_request token (toggle_alerts (settings_state r))) d))
    = [{| settings_id := 1; data_limit_gb := data_limit_gb r;
          alerts_enabled := 1 - alerts_enabled r |}].
Proof.
  intros Eset Hid Hflag Hlimit Hauth.
  destruct (save_back_field (data_limit_gb r) Hlimit) as [Hs Hb].
  assert (Hauth' : authenticate X env now
                     (save_request token (toggle_alerts (settings_state r)))
                   = inr user) by exact Hauth.
  unfold authenticated. rewrite Hauth, Hauth'.
  unfold post_settings_handler, save_request, toggle_alerts, settings_state.
  cbn [body body_data_limit_gb body_alerts_enabled].
  rewrite !Hs, !Hb. rewrite Eset. unfold update_settings. cbn [map].
  rewrite Hid. cbn [Z.eqb Pos.eqb fst snd settings].
  destruct d as [us tl st useq tseq]. simpl in Eset. subst st.
  destruct r as [rid rlimit ralerts]. simpl in Hid, Hflag |- *. subst rid.
  destruct Hflag as [-> | ->]; simpl; repeat split.
Qed.

Lemma dashboard_save_witness :
  authenticated sample_externals None 1700000300
    (post_settings_handler sample_externals)
    (save_request "eyJ.alice.sig" (settings_state default_settings))
    sample_database
  = (Json 200 PSuccess, sample_database) /\
  settings
    (snd (authenticated sample_externals None 1700000300
            (post_settings_handler sample_externals)
            (save_request "eyJ.alice.sig"
                          (toggle_alerts (settings_state default_settings)))
            sample_database))
  = [{| settings_id := 1; data_limit_gb := SqlReal 100%float;
        alerts_enabled := 0 |}].
Proof.
  destruct (dashboard_save sample_externals None 1700000300 "eyJ.alice.sig"
              sample_claims sample_database default_settings)
    as (H1 & _ & H3).
  - reflexivity.
  - reflexivity.
  - now right.
  - right. exists 100%float. repeat split.
  - reflexivity.
  - split; [exact H1|exact H3].
Defined.

Lemma firstn_cons_firstn {A} (n : nat) (x : A) (l : list A) :
  firstn (S n) (x :: firstn (S n) l) = firstn (S n) (x :: l).
Proof.
  rewrite !firstn_cons. f_equal. rewrite firstn_firstn.
  f_equal. apply Nat.min_l. apply Nat.le_succ_diag_r.
Qed.

Lemma live_logs_snoc (msgs : list ws_message) (m : ws_message) :
  live_logs (msgs ++ [m]) = onmessage m (live_logs msgs).
Proof. unfold live_logs. now rewrite fold_left_app. Qed.

(** X16.  The live log of the dashboard holds the data of the TRAFFIC_UPDATE
    messages received, newest first, cut to the 50 newest; messages of any
    other type are ignored. *)
Theorem live_logs_newest_50 (msgs : list ws_message) :
  live_logs msgs = firstn 50 (rev (map msg_data (filter is_update msgs))) /\
  (length (live_logs msgs) <= 50)%nat /\
  length (live_logs msgs)
    = Nat.min 50 (length (filter is_update msgs)).
Proof.
  assert (H : live_logs msgs
              = firstn 50 (rev (map msg_data (filter is_update msgs)))).
  { induction msgs as [|m msgs IH] using rev_ind; [reflexivity|].
    rewrite live_logs_snoc, IH, filter_app. unfold onmessage.
    cbn [filter].
    change (msg_type m =? "TRAFFIC_UPDATE")%string with (is_update m).
    destruct (is_update m).
    - rewrite map_app, rev_app_distr. cbn [map rev app].
      apply (firstn_cons_firstn 49).
    - now rewrite app_nil_r. }
  split; [exact H|]. rewrite H. split; [apply firstn_le_length|].
  now rewrite length_firstn, length_rev, length_map.
Qed.

(* ================================================================== *)
(** * More on the gate and the simulator *)

Lemma split_field (a b : string) :
  no_blank a = true ->
  split " " (a ++ String " " b) = a :: split " " b.
Proof.
  induction a as [|c a IH]; intro H; [reflexivity|].
  simpl in H. apply andb_true_iff in H. destruct H as [Hc Ha].
  apply negb_true_iff in Hc.
  change (String c a ++ String " " b)%string
    with (String c (a ++ String " " b)).
  cbn [split]. rewrite Hc, (IH Ha). reflexivity.
Qed.

Lemma bearer_token_second {B} (scheme token : string) (b : B) :
  no_blank scheme = true -> no_blank token = true -> token <> EmptyString ->
  bearer_token {| authorization := Some (scheme ++ String " " token)%string;
                  body := b |} = Some token /\
  forall rest,
    bearer_token {| authorization :=
                      Some (scheme ++ String " " (token ++ String " " rest))%string;
                    body := b |} = Some token.
Proof.
  intros Hs Ht Hne. unfold bearer_token. cbn [authorization]. split.
  - rewrite (split_field scheme token Hs), (split_no_blank token Ht).
    cbn [nth_error]. destruct token; [contradiction|reflexivity].
  - intro rest. rewrite (split_field scheme _ Hs), (split_field token rest Ht).
    cbn [nth_error]. destruct token; [contradiction|reflexivity].
Qed.

(** X11.  The gate takes the second blank-separated field of the Authorization
    header as the token and looks at nothing else: any scheme word in
    front, and anything after a further blank, give the same result as
    "Bearer <token>"; a header without a blank is answered 401
    "Unauthorized". *)
Theorem scheme_not_checked (X : externals) (env : option string) (B : Type)
  (now : Z) (scheme token : string) (b : B) :
  no_blank scheme = true -> no_blank token = true -> token <> EmptyString ->
  authenticate X env now
    {| authorization := Some (scheme ++ String " " token)%string; body := b |}
  = authenticate X env now
      {| authorization := Some ("Bearer " ++ token)%string; body := b |} /\
  (forall rest,
     authenticate X env now
       {| authorization :=
            Some (scheme ++ String " " (token ++ String " " rest))%string;
          body := b |}
     = authenticate X env now
         {| authorization := Some ("Bearer " ++ token)%string; body := b |}) /\
  authenticate X env now {| authorization := Some token; body := b |}
  = inl (Json 401 (PError "Unauthorized")).
Proof.
  intros Hs Ht Hne. unfold authenticate.
  destruct (bearer_token_second scheme token b Hs Ht Hne) as [E1 E2].
  rewrite E1, (bearer_token_of_header token b Ht Hne).
  split; [reflexivity|]. split.
  - intro rest. now rewrite E2.
  - unfold bearer_token. cbn [authorization].
    rewrite (split_no_blank token Ht). reflexivity.
Qed.

Lemma scheme_not_checked_witness :
  authenticate sample_externals None 1700000000
    {| authorization := Some "Basic eyJ.alice.sig"; body := tt |}
  = inr sample_claims /\
  authenticate sample_externals None 1700000000
    {| authorization := Some "eyJ.alice.sig"; body := tt |}
  = inl (Json 401 (PError "Unauthorized")).
Proof.
  destruct (scheme_not_checked sample_externals None unit 1700000000
              "Basic" "eyJ.alice.sig" tt) as (H1 & _ & H3);
    [reflexivity|reflexivity|discriminate|].
  split; [|exact H3]. exact (eq_trans H1 eq_refl).
Defined.

(** X10.  Every record the timer inserts has the source address "192.168.1.k"
    and the destination address "104.26.12.k'" with k and k' between 0 and
    254 (255 is never drawn), the next id and the time of the tick. *)
Theorem tick_addresses (now : Z) (dr : draws) (clients : list client)
  (send : client -> send_result) (d : database) :
  draws_ok dr ->
  exists r k k',
    tick_entry (tick now dr clients send d) = Some r /\
    source_ip r = ("192.168.1." ++ decimal k)%string /\ 0 <= k <= 254 /\
    destination_ip r = ("104.26.12." ++ decimal k')%string /\ 0 <= k' <= 254 /\
    log_id r = traffic_seq d + 1 /\ timestamp r = now.
Proof.
  intro Hdr.
  destruct (tick_inserts now dr clients send d Hdr)
    as (dom & proto & _ & _ & ->).
  destruct Hdr as (_ & _ & _ & _ & Hsrc & Hdst).
  pose proof (random_below_range (draw_source dr) 255 Hsrc ltac:(lia)).
  pose proof (random_below_range (draw_dest dr) 255 Hdst ltac:(lia)).
  eexists. exists (random_below (draw_source dr) 255),
                  (random_below (draw_dest dr) 255).
  cbn. repeat split; lia.
Qed.

Lemma tick_addresses_witness :
  exists r k k',
    tick_entry (tick 1700000000 sample_draws [] (fun _ => Sent)
                     sample_database) = Some r /\
    source_ip r = ("192.168.1." ++ decimal k)%string /\ 0 <= k <= 254 /\
    destination_ip r = ("104.26.12." ++ decimal k')%string /\ 0 <= k' <= 254 /\
    log_id r = traffic_seq sample_database + 1 /\ timestamp r = 1700000000.
Proof.
  apply tick_addresses.
  unfold draws_ok, is_unit_double. simpl. lia.
Defined.
